(** * SocketBridge: a relay of fixed-size packets between a TCP client and a
    UDP socket

    Shallow embedding of [socketbridge.cpp] / [socketbridge.h].

    The two nested classes [TCP_Client] and [UDP_Server] become records; the
    member functions and the completion lambdas they pass to Boost.Asio
    become functions in a small state/exception monad over a [world] that
    holds both objects, the [io_service]'s outstanding operations and the
    console and socket activity produced so far.  The Boost.Asio calls the
    source makes ([async_connect], [async_read], [async_write],
    [async_receive_from], [async_send_to], [close], [bind], [resolve]) are
    modelled next to them; whatever the network and the operating system
    decide is an input: an [environment] for the synchronous calls and a
    schedule of completion [event]s for the asynchronous ones. *)

From Stdlib Require Import List ZArith NArith String Ascii Bool Lia.
From Stdlib.Strings Require Import Byte.
From Stdlib Require Import DecimalString PeanoNat.
From Stdlib Require DecimalN.
Import ListNotations.

Open Scope string_scope.
Open Scope list_scope.

(** ** Data model *)

(** [const int packetSize = 56;] *)
Definition packetSize : nat := 56.

(** [boost::array<char, ::packetSize>]: the bytes of the array, in order. *)
Definition array := list byte.

(** [boost::system::error_code]: a category and a value; value 0 converts to
    [false] ("no error"). *)
Record error_code := { category : string; value : Z }.

Definition failed (ec : error_code) : bool := negb (value ec =? 0)%Z.

Definition system_error_code (v : Z) : error_code :=
  {| category := "system"; value := v |}.

Definition no_error : error_code := system_error_code 0.
Definition err_bad_descriptor : error_code := system_error_code 9.
Definition err_broken_pipe : error_code := system_error_code 32.
Definition err_connection_refused : error_code := system_error_code 111.
Definition err_eof : error_code := {| category := "asio.misc"; value := 2 |}.
Definition err_not_found : error_code := {| category := "asio.misc"; value := 3 |}.

Definition show_Z (z : Z) : string := NilZero.string_of_int (Z.to_int z).
Definition show_N (n : N) : string := NilZero.string_of_uint (N.to_uint n).

(** [operator<<] on an [error_code] prints [category:value]. *)
Definition show_ec (ec : error_code) : string :=
  category ec ++ ":" ++ show_Z (value ec).

(** [std::exception]: only [what()] is observed. *)
Record exception := { what : string }.

(** [udp::endpoint] / [tcp::endpoint]: an address and a 16-bit port. *)
Record endpoint := { address : string; port : N }.

Definition endpoint_eqb (a b : endpoint) : bool :=
  String.eqb (address a) (address b) && N.eqb (port a) (port b).

(** The state of [tcp::socket socket_]. *)
Inductive tcp_socket :=
| closed          (* no descriptor: never opened, or closed *)
| connecting      (* opened by [async_connect], connect in progress *)
| not_connected   (* open, every connect attempt failed *)
| connected.

Inductive UDP_Server_ptr := addr_udpSock.
Inductive TCP_Client_ptr := addr_tcpSock.

(** [class TCP_Client].  A pointer member that was never assigned is [None]. *)
Record TCP_Client := {
  tcp_socket_ : tcp_socket;
  tcp_remote_endpoint_ : endpoint;
  tcp_recv_buffer_ : array;
  udpServer : option UDP_Server_ptr
}.

(** [class UDP_Server].  [udp_socket_] is [true] while the socket is open. *)
Record UDP_Server := {
  udp_socket_ : bool;
  remote_endpoint_ : endpoint;
  udp_recv_buffer_ : array;
  tcpServer : option TCP_Client_ptr
}.

(** [class SocketBridge]: the four configuration members. *)
Record SocketBridge := {
  tcpIp : string;
  tcpPort : string;
  udpIp : string;
  udpPort : N
}.

(** The constructor: [tcpPort(std::to_string(tcpPort))], the rest copied. *)
Definition SocketBridge_new (tcpIp0 : string) (tcpPort0 : N)
    (udpIp0 : string) (udpPort0 : N) : SocketBridge :=
  {| tcpIp := tcpIp0; tcpPort := show_N tcpPort0;
     udpIp := udpIp0; udpPort := udpPort0 |}.

(** ** The io_service *)

(** Operations are numbered in the order they are started. *)
Abbreviation op_id := nat (only parsing).

(** An asynchronous operation that has been started and has not completed.
    [op_read got]: the composed [async_read] into [TCP_Client::recv_buffer_],
    of which [got] bytes are filled.  [op_write] and [op_send_to] own the
    bytes of the by-value [message] parameter their buffer was made from;
    [op_send_to] also owns a copy of the destination.  [op_receive_from]
    refers to [UDP_Server::recv_buffer_] and [UDP_Server::remote_endpoint_],
    both written when it completes.

    The buffer handed to [async_write] and [async_send_to] refers to the
    parameter, whose storage ends when the member function returns; an
    operation is taken to transmit the bytes it was started with.  What the
    library reads from released storage is not part of this model. *)
Inductive async_op :=
| op_connect (endpoints : list endpoint)
| op_read (got : nat)
| op_write (message : array)
| op_receive_from
| op_send_to (message : array) (destination : endpoint).

(** What the program does that can be seen from outside, in order. *)
Inductive action :=
| cout (line : string)
| cerr (line : string)
| issue_async_connect
| issue_async_read
| issue_async_write (message : array)
| issue_async_receive_from
| issue_async_send_to (message : array) (destination : endpoint)
| tcp_wrote (bytes : array)
| udp_sent_to (bytes : array) (destination : endpoint).

(** Completion of an operation, as decided by the peer and the network. *)
Inductive completion :=
| connect_done (ec : error_code)
| read_some_done (ec : error_code) (data : list byte)
| write_done (ec : error_code)
| receive_from_done (ec : error_code) (sender : endpoint) (datagram : list byte)
| send_to_done (ec : error_code).

Definition event := (op_id * completion)%type.

(** What the synchronous library calls answer, and what uninitialised memory
    holds: [resolver.resolve] (the endpoints, or the exception thrown),
    opening the UDP socket, [address::from_string], [set_option] with
    [reuse_address], [error_code::message], [bind], the one [close] of an
    open TCP socket, and the initial contents of the two receive buffers. *)
Record environment := {
  resolve : string -> string -> exception + list endpoint;
  udp_open : option exception;
  from_string : string -> exception + string;
  set_option_ec : error_code;
  ec_message : error_code -> string;
  udp_bind : endpoint -> option exception;
  close_ec : error_code;
  tcp_garbage : list byte;
  udp_garbage : list byte
}.

(** An outstanding operation.  [early] is the error the operation met when it
    was started on a socket that cannot carry it; such an operation completes
    with that error whatever the network does. *)
Record started := { op : async_op; early : option error_code }.

Record world := {
  tcpSock : TCP_Client;
  udpSock : UDP_Server;
  pending : list (op_id * started);
  next_id : op_id;
  out : list action
}.

(** ** The monad of member functions and handlers *)

Inductive result (A : Type) :=
| Val (a : A) (w : world)
| Exn (e : exception) (w : world)
| UB.
Arguments Val {A} a w.
Arguments Exn {A} e w.
Arguments UB {A}.

Definition M (A : Type) := world -> result A.

Definition ret {A} (a : A) : M A := fun w => Val a w.

Definition bind {A B} (c : M A) (k : A -> M B) : M B :=
  fun w => match c w with
           | Val a w' => k a w'
           | Exn e w' => Exn e w'
           | UB => UB
           end.

Definition throw {A} (e : exception) : M A := fun w => Exn e w.

(** Use of a pointer that was never assigned. *)
Definition undefined {A} : M A := fun _ => UB.

Notation "x <- c ;; k" := (bind c (fun x => k))
  (at level 61, c at next level, right associativity).
Notation "c ;; k" := (bind c (fun _ => k))
  (at level 61, right associativity).

Definition get : M world := fun w => Val w w.
Definition put (w : world) : M unit := fun _ => Val tt w.

Definition set_tcp (t : TCP_Client) : M unit :=
  fun w => Val tt {| tcpSock := t; udpSock := udpSock w;
                     pending := pending w; next_id := next_id w; out := out w |}.

Definition set_udp (u : UDP_Server) : M unit :=
  fun w => Val tt {| tcpSock := tcpSock w; udpSock := u;
                     pending := pending w; next_id := next_id w; out := out w |}.

Definition set_pending (p : list (op_id * started)) : M unit :=
  fun w => Val tt {| tcpSock := tcpSock w; udpSock := udpSock w;
                     pending := p; next_id := next_id w; out := out w |}.

Definition emit (a : action) : M unit :=
  fun w => Val tt {| tcpSock := tcpSock w; udpSock := udpSock w;
                     pending := pending w; next_id := next_id w;
                     out := out w ++ [a] |}.

Definition with_socket (s : tcp_socket) (t : TCP_Client) : TCP_Client :=
  {| tcp_socket_ := s; tcp_remote_endpoint_ := tcp_remote_endpoint_ t;
     tcp_recv_buffer_ := tcp_recv_buffer_ t; udpServer := udpServer t |}.

Definition with_tcp_buffer (b : array) (t : TCP_Client) : TCP_Client :=
  {| tcp_socket_ := tcp_socket_ t; tcp_remote_endpoint_ := tcp_remote_endpoint_ t;
     tcp_recv_buffer_ := b; udpServer := udpServer t |}.

Definition with_udpServer (p : UDP_Server_ptr) (t : TCP_Client) : TCP_Client :=
  {| tcp_socket_ := tcp_socket_ t; tcp_remote_endpoint_ := tcp_remote_endpoint_ t;
     tcp_recv_buffer_ := tcp_recv_buffer_ t; udpServer := Some p |}.

Definition with_received (sender : endpoint) (b : array) (u : UDP_Server)
    : UDP_Server :=
  {| udp_socket_ := udp_socket_ u; remote_endpoint_ := sender;
     udp_recv_buffer_ := b; tcpServer := tcpServer u |}.

Definition with_tcpServer (p : TCP_Client_ptr) (u : UDP_Server) : UDP_Server :=
  {| udp_socket_ := udp_socket_ u; remote_endpoint_ := remote_endpoint_ u;
     udp_recv_buffer_ := udp_recv_buffer_ u; tcpServer := Some p |}.

(** ** The program *)

Section Program.

Context (os : environment).

(** *** Boost.Asio: starting an operation *)

Definition start_op (o : async_op) (e : option error_code) : M unit :=
  fun w => Val tt {| tcpSock := tcpSock w; udpSock := udpSock w;
                     pending := pending w ++ [(next_id w, {| op := o; early := e |})];
                     next_id := S (next_id w); out := out w |}.

(** A stream operation started on a socket without a connection fails at once. *)
Definition tcp_early (s : tcp_socket) : option error_code :=
  match s with
  | closed => Some err_bad_descriptor
  | not_connected => Some err_broken_pipe
  | connecting | connected => None
  end.

Definition udp_early (is_open : bool) : option error_code :=
  if is_open then None else Some err_bad_descriptor.

(** [boost::asio::async_connect(socket_, endpoint, handler)]: opens the socket
    for the first endpoint of the range; an empty range completes with
    [not_found]. *)
Definition async_connect (endpoints : list endpoint) : M unit :=
  w <- get ;;
  match endpoints with
  | [] => start_op (op_connect endpoints) (Some err_not_found)
  | _ :: _ => set_tcp (with_socket connecting (tcpSock w)) ;;
              start_op (op_connect endpoints) None
  end ;;
  emit issue_async_connect.

(** [boost::asio::async_read(socket_, buffer(recv_buffer_, packetSize), handler)] *)
Definition async_read : M unit :=
  w <- get ;;
  start_op (op_read 0) (tcp_early (tcp_socket_ (tcpSock w))) ;;
  emit issue_async_read.

(** [boost::asio::async_write(socket_, buffer(message, packetSize), handler)] *)
Definition async_write (message : array) : M unit :=
  w <- get ;;
  start_op (op_write message) (tcp_early (tcp_socket_ (tcpSock w))) ;;
  emit (issue_async_write message).

(** [socket_.async_receive_from(buffer(recv_buffer_, packetSize),
    remote_endpoint_, handler)] *)
Definition async_receive_from : M unit :=
  w <- get ;;
  start_op op_receive_from (udp_early (udp_socket_ (udpSock w))) ;;
  emit issue_async_receive_from.

(** [socket_.async_send_to(buffer(message, packetSize), destination, handler)]:
    the destination is copied into the operation. *)
Definition async_send_to (message : array) (destination : endpoint) : M unit :=
  w <- get ;;
  start_op (op_send_to message destination) (udp_early (udp_socket_ (udpSock w))) ;;
  emit (issue_async_send_to message destination).

(** [socket_.close()]: nothing on a socket that is not open; otherwise the
    descriptor is released, and an error from the system is thrown. *)
Definition tcp_close : M unit :=
  w <- get ;;
  match tcp_socket_ (tcpSock w) with
  | closed => ret tt
  | _ => set_tcp (with_socket closed (tcpSock w)) ;;
         if failed (close_ec os)
         then throw {| what := "close: " ++ ec_message os (close_ec os) |}
         else ret tt
  end.

(** *** TCP_Client and UDP_Server: the sending side *)

(** [TCP_Client::handle_write(const boost::array<char, packetSize> message)] *)
Definition TCP_Client_handle_write (message : array) : M unit :=
  async_write message.

(** The lambda given to [async_write]. *)
Definition TCP_Client_on_write (ec : error_code) : M unit :=
  if failed ec
  then emit (cerr ("SocketBridge: TCP writing failed: " ++ show_ec ec)) ;;
       tcp_close
  else ret tt.

(** [UDP_Server::handle_send(const boost::array<char, packetSize> message)] *)
Definition UDP_Server_handle_send (message : array) : M unit :=
  w <- get ;;
  async_send_to message (remote_endpoint_ (udpSock w)).

(** The lambda given to [async_send_to]. *)
Definition UDP_Server_on_send (ec : error_code) : M unit :=
  if failed ec
  then emit (cerr ("SocketBridge: UDP sending failed: " ++ show_ec ec))
  else ret tt.

(** *** TCP_Client: the receiving side *)

(** [TCP_Client::start_read()] *)
Definition TCP_Client_start_read : M unit := async_read.

(** The lambda given to [async_read]. *)
Definition TCP_Client_on_read (ec : error_code) : M unit :=
  if negb (failed ec)
  then w <- get ;;
       match udpServer (tcpSock w) with
       | None => undefined
       | Some addr_udpSock =>
           UDP_Server_handle_send (tcp_recv_buffer_ (tcpSock w))
       end ;;
       TCP_Client_start_read
  else emit (cerr ("SocketBridge: TCP failed read: " ++ show_ec ec)) ;;
       tcp_close.

(** The lambda given to [async_connect]. *)
Definition TCP_Client_on_connect (ec : error_code) : M unit :=
  if negb (failed ec)
  then emit (cout "SocketBridge: TCP client connected") ;;
       TCP_Client_start_read
  else emit (cerr ("SocketBridge: tcp failed to connect: " ++ show_ec ec)).

(** [TCP_Client::TCP_Client(io_service, endpoint)]: [socket_(io_service)] is
    not open; the other members are left as they are. *)
Definition TCP_Client_new (endpoint_iterator : list endpoint) : M unit :=
  w <- get ;;
  set_tcp (with_socket closed (tcpSock w)) ;;
  async_connect endpoint_iterator.

(** [TCP_Client::setUdp(UDP_Server* newUdp)] *)
Definition setUdp (newUdp : UDP_Server_ptr) : M unit :=
  w <- get ;;
  set_tcp (with_udpServer newUdp (tcpSock w)).

(** *** UDP_Server: the receiving side *)

(** [UDP_Server::start_read()] *)
Definition UDP_Server_start_read : M unit := async_receive_from.

(** The lambda given to [async_receive_from]. *)
Definition UDP_Server_on_receive (ec : error_code) : M unit :=
  if negb (failed ec)
  then w <- get ;;
       match tcpServer (udpSock w) with
       | None => undefined
       | Some addr_tcpSock =>
           TCP_Client_handle_write (udp_recv_buffer_ (udpSock w))
       end ;;
       UDP_Server_start_read
  else emit (cerr ("SocketBridge: UDP reading failed: " ++ show_ec ec)).

(** [UDP_Server::UDP_Server(io_service, host, port)].  Members are initialised
    in declaration order: the socket is opened, then the endpoint is built
    from [address::from_string(host)] and the port converted to
    [unsigned short]. *)
Definition UDP_Server_new (host : string) (port0 : N) : M unit :=
  match udp_open os with
  | Some e => throw e
  | None =>
      match from_string os host with
      | inl e => throw e
      | inr a =>
          let ep := {| address := a; port := (port0 mod 65536)%N |} in
          w <- get ;;
          set_udp {| udp_socket_ := true; remote_endpoint_ := ep;
                     udp_recv_buffer_ := udp_recv_buffer_ (udpSock w);
                     tcpServer := tcpServer (udpSock w) |} ;;
          emit (cout "SocketBridge: UDP Server connected") ;;
          (if failed (set_option_ec os)
           then emit (cerr (ec_message os (set_option_ec os)))
           else ret tt) ;;
          match udp_bind os ep with
          | Some e => throw e
          | None => UDP_Server_start_read
          end
      end
  end.

(** [UDP_Server::setTcp(TCP_Client* newTcp)] *)
Definition setTcp (newTcp : TCP_Client_ptr) : M unit :=
  w <- get ;;
  set_udp (with_tcpServer newTcp (udpSock w)).

(** *** Boost.Asio: completing an operation *)

Definition find_op (id : op_id) (p : list (op_id * started)) : option started :=
  match find (fun e => Nat.eqb (fst e) id) p with
  | Some e => Some (snd e)
  | None => None
  end.

Definition without (id : op_id) (p : list (op_id * started))
    : list (op_id * started) :=
  filter (fun e => negb (Nat.eqb (fst e) id)) p.

Definition replaced (id : op_id) (s : started) (p : list (op_id * started))
    : list (op_id * started) :=
  map (fun e => if Nat.eqb (fst e) id then (id, s) else e) p.

Definition remove_op (id : op_id) : M unit :=
  w <- get ;;
  set_pending (without id (pending w)).

Definition replace_op (id : op_id) (s : started) : M unit :=
  w <- get ;;
  set_pending (replaced id s (pending w)).

Definition decide (e : option error_code) (ec : error_code) : error_code :=
  match e with
  | Some e' => e'
  | None => ec
  end.

(** Storing [chunk] into an array from offset [off] on. *)
Definition splice (off : nat) (chunk : list byte) (a : array) : array :=
  firstn off a ++ chunk ++ skipn (off + List.length chunk) a.

(** A freshly declared [boost::array<char, packetSize>] holds whatever the
    memory held. *)
Definition uninitialised (garbage : list byte) : array :=
  firstn packetSize (garbage ++ repeat x00 packetSize).

(** The socket when [async_connect] completes: connected, or open without a
    connection; a socket closed in the meantime stays closed. *)
Definition connect_result (s : tcp_socket) (ec : error_code) : tcp_socket :=
  match s with
  | connecting => if failed ec then not_connected else connected
  | _ => s
  end.

Definition complete_connect (ec : error_code) : M unit :=
  w <- get ;;
  set_tcp (with_socket (connect_result (tcp_socket_ (tcpSock w)) ec)
                       (tcpSock w)) ;;
  TCP_Client_on_connect ec.

(** One [read_some] of the composed [async_read] completes.  The operation
    ends, and its handler runs, on an error, on end of stream (no byte
    delivered) or when all [packetSize] bytes are in [recv_buffer_];
    otherwise it stays outstanding with more bytes filled. *)
Definition complete_read (id : op_id) (got : nat) (ec : error_code)
    (data : list byte) : M unit :=
  if failed ec
  then remove_op id ;; TCP_Client_on_read ec
  else
    match firstn (packetSize - got) data with
    | [] => remove_op id ;; TCP_Client_on_read err_eof
    | chunk =>
        w <- get ;;
        set_tcp (with_tcp_buffer
                   (splice got chunk (tcp_recv_buffer_ (tcpSock w)))
                   (tcpSock w)) ;;
        if Nat.eqb (got + List.length chunk) packetSize
        then remove_op id ;; TCP_Client_on_read ec
        else replace_op id {| op := op_read (got + List.length chunk);
                              early := None |}
    end.

Definition complete_write (message : array) (ec : error_code) : M unit :=
  (if failed ec then ret tt else emit (tcp_wrote message)) ;;
  TCP_Client_on_write ec.

(** A datagram is received: its first [packetSize] bytes go to the front of
    [recv_buffer_] and the sender's address to [remote_endpoint_]. *)
Definition complete_receive_from (ec : error_code) (sender : endpoint)
    (datagram : list byte) : M unit :=
  (if failed ec then ret tt
   else w <- get ;;
        set_udp (with_received sender
                   (splice 0 (firstn packetSize datagram)
                           (udp_recv_buffer_ (udpSock w)))
                   (udpSock w))) ;;
  UDP_Server_on_receive ec.

Definition complete_send_to (message : array) (destination : endpoint)
    (ec : error_code) : M unit :=
  (if failed ec then ret tt else emit (udp_sent_to message destination)) ;;
  UDP_Server_on_send ec.

(** The io_service delivers one completion.  An event that names no
    outstanding operation, or a completion of the wrong kind, is not
    something the io_service can deliver: nothing happens. *)
Definition run_one (ev : event) : M unit :=
  w <- get ;;
  match find_op (fst ev) (pending w) with
  | None => ret tt
  | Some s =>
      match op s, snd ev with
      | op_connect _, connect_done ec =>
          remove_op (fst ev) ;; complete_connect (decide (early s) ec)
      | op_read got, read_some_done ec data =>
          complete_read (fst ev) got (decide (early s) ec) data
      | op_write message, write_done ec =>
          remove_op (fst ev) ;; complete_write message (decide (early s) ec)
      | op_receive_from, receive_from_done ec sender datagram =>
          remove_op (fst ev) ;;
          complete_receive_from (decide (early s) ec) sender datagram
      | op_send_to message destination, send_to_done ec =>
          remove_op (fst ev) ;;
          complete_send_to message destination (decide (early s) ec)
      | _, _ => ret tt
      end
  end.

(** [io_service.run()]: handlers run one after another while operations are
    outstanding.  The schedule is the order and outcome of the completions;
    when it ends the run is observed where it stands. *)
Fixpoint io_service_run (schedule : list event) : M unit :=
  match schedule with
  | [] => ret tt
  | ev :: rest =>
      w <- get ;;
      match pending w with
      | [] => ret tt
      | _ :: _ => run_one ev ;; io_service_run rest
      end
  end.

(** *** SocketBridge::startConnections *)

Definition any_endpoint : endpoint := {| address := "0.0.0.0"; port := 0 |}.

(** The storage of [udpSock] and [tcpSock] before their constructors run. *)
Definition raw_world : world :=
  {| tcpSock := {| tcp_socket_ := closed;
                   tcp_remote_endpoint_ := any_endpoint;
                   tcp_recv_buffer_ := uninitialised (tcp_garbage os);
                   udpServer := None |};
     udpSock := {| udp_socket_ := false;
                   remote_endpoint_ := any_endpoint;
                   udp_recv_buffer_ := uninitialised (udp_garbage os);
                   tcpServer := None |};
     pending := []; next_id := 0; out := [] |}.

(** The statements of the [try] block up to the construction of both
    sockets. *)
Definition construct (self : SocketBridge) : M unit :=
  emit (cout ("Starting SocketBridge, connecting TCP "
              ++ tcpIp self ++ ":" ++ tcpPort self
              ++ " to UDP " ++ udpIp self ++ ":" ++ show_N (udpPort self))) ;;
  match resolve os (tcpIp self) (tcpPort self) with
  | inl e => throw e
  | inr endpoint_iterator =>
      UDP_Server_new (udpIp self) (udpPort self) ;;
      TCP_Client_new endpoint_iterator
  end.

(** The statements of the [try] block. *)
Definition try_block (self : SocketBridge) (schedule : list event) : M unit :=
  construct self ;;
  setUdp addr_udpSock ;;
  setTcp addr_tcpSock ;;
  io_service_run schedule.

(** How a call of [startConnections] is observed: it returned, having produced
    [output]; or [io_service.run()] still has outstanding operations after
    the schedule; or the program used a pointer that was never assigned. *)
Inductive termination :=
| returned (output : list action)
| running (w : world)
| crashed.

Definition startConnections (self : SocketBridge) (schedule : list event)
    : termination :=
  match try_block self schedule raw_world with
  | Val _ w =>
      match pending w with
      | [] => returned (out w)
      | _ :: _ => running w
      end
  | Exn e w => returned (out w ++ [cerr (what e)])
  | UB => crashed
  end.

End Program.

(** ** A sample configuration *)

(** A packet filled with one byte. *)
Definition packet_of (b : byte) : array := repeat b packetSize.

(** An environment in which every synchronous call succeeds. *)
Definition quiet_os : environment :=
  {| resolve := fun h p => inr [ {| address := h; port := 9000 |} ];
     udp_open := None;
     from_string := fun h => inr h;
     set_option_ec := no_error;
     ec_message := fun ec => show_ec ec;
     udp_bind := fun _ => None;
     close_ec := no_error;
     tcp_garbage := [];
     udp_garbage := [] |}.

Definition bridge : SocketBridge :=
  SocketBridge_new "127.0.0.1" 9000 "127.0.0.1" 9001.

Definition peer : endpoint := {| address := "10.0.0.7"; port := 5555 |}.

(** ** Worlds reached during a session *)

Section Session.

Context (os : environment).

(** The world in which [io_service.run()] is entered: both sockets
    constructed and cross-wired. *)
Definition wired (self : SocketBridge) (w : world) : Prop :=
  (construct os self ;; setUdp addr_udpSock ;; setTcp addr_tcpSock)
    (raw_world os) = Val tt w.

(** Handlers run one after another; each run that returns normally is a
    step.  [steps schedule w w']: delivering the completions of [schedule]
    in order leads from [w] to [w']. *)
Inductive steps : list event -> world -> world -> Prop :=
| steps_refl w : steps [] w w
| steps_next w ev w1 rest w2 :
    run_one os ev w = Val tt w1 -> steps rest w1 w2 -> steps (ev :: rest) w w2.

Definition reachable (self : SocketBridge) (w : world) : Prop :=
  exists w0 schedule, wired self w0 /\ steps schedule w0 w.

(** How many outstanding operations are of a given kind. *)
Definition count_ops (k : async_op -> bool) (p : list (op_id * started)) : nat :=
  List.length (filter (fun e => k (op (snd e))) p).

Definition is_receive (o : async_op) : bool :=
  match o with op_receive_from => true | _ => false end.

Definition is_read (o : async_op) : bool :=
  match o with op_read _ => true | _ => false end.

Definition is_connect_or_read (o : async_op) : bool :=
  match o with op_connect _ | op_read _ => true | _ => false end.

(** Outstanding operations carry distinct numbers, all below the next one. *)
Definition well_numbered (n : nat) (p : list (op_id * started)) : Prop :=
  Forall (fun e => fst e < n) p /\ NoDup (map fst p).

(** What holds of every world of a session. *)
Record invariant (w : world) : Prop := {
  inv_udpServer : udpServer (tcpSock w) = Some addr_udpSock;
  inv_tcpServer : tcpServer (udpSock w) = Some addr_tcpSock;
  inv_tcp_buffer : List.length (tcp_recv_buffer_ (tcpSock w)) = packetSize;
  inv_udp_buffer : List.length (udp_recv_buffer_ (udpSock w)) = packetSize;
  inv_udp_open : udp_socket_ (udpSock w) = true;
  inv_numbered : well_numbered (next_id w) (pending w);
  inv_one_read : count_ops is_connect_or_read (pending w) <= 1;
  inv_one_receive : count_ops is_receive (pending w) <= 1
}.

End Session.

(** ** Steps case by case, observations, sample environments and schedules *)

(** The world after a step that changed the sockets to [t] and [u], left
    [p] outstanding and produced [acts]. *)
Definition world_after (w : world) (t : TCP_Client) (u : UDP_Server)
    (p : list (op_id * started)) (n : nat) (acts : list action) : world :=
  {| tcpSock := t; udpSock := u; pending := p; next_id := n;
     out := out w ++ acts |}.

(** [socket_.close()] leaves the socket closed, whether it returns or throws. *)
Definition closed_world (w : world) : world :=
  {| tcpSock := with_socket closed (tcpSock w); udpSock := udpSock w;
     pending := pending w; next_id := next_id w; out := out w |}.

(** A completion of a kind other than the operation's. *)
Definition mismatch (o : async_op) (c : completion) : Prop :=
  match o, c with
  | op_connect _, connect_done _
  | op_read _, read_some_done _ _
  | op_write _, write_done _
  | op_receive_from, receive_from_done _ _ _
  | op_send_to _ _, send_to_done _ => False
  | _, _ => True
  end.

(** [delivery os w ev r]: delivering [ev] in world [w], where both
    back-references are set, has result [r].  One rule per path through
    the completion handlers. *)
Inductive delivery (os : environment) (w : world) : event -> result unit -> Prop :=
| deliver_nothing ev :
    find_op (fst ev) (pending w) = None ->
    delivery os w ev (Val tt w)
| deliver_mismatch id s c :
    find_op id (pending w) = Some s -> mismatch (op s) c ->
    delivery os w (id, c) (Val tt w)
| deliver_connect_ok id e ec eps :
    find_op id (pending w) = Some {| op := op_connect eps; early := e |} ->
    failed (decide e ec) = false ->
    delivery os w (id, connect_done ec)
      (Val tt
         (world_after w
            (with_socket (connect_result (tcp_socket_ (tcpSock w)) (decide e ec))
                         (tcpSock w))
            (udpSock w)
            (without id (pending w)
             ++ [(next_id w,
                  {| op := op_read 0;
                     early := tcp_early (connect_result (tcp_socket_ (tcpSock w))
                                                        (decide e ec)) |})])
            (S (next_id w))
            [cout "SocketBridge: TCP client connected"; issue_async_read]))
| deliver_connect_error id e ec eps :
    find_op id (pending w) = Some {| op := op_connect eps; early := e |} ->
    failed (decide e ec) = true ->
    delivery os w (id, connect_done ec)
      (Val tt
         (world_after w
            (with_socket (connect_result (tcp_socket_ (tcpSock w)) (decide e ec))
                         (tcpSock w))
            (udpSock w) (without id (pending w)) (next_id w)
            [cerr ("SocketBridge: tcp failed to connect: "
                   ++ show_ec (decide e ec))]))
| deliver_read_error id e ec got data :
    find_op id (pending w) = Some {| op := op_read got; early := e |} ->
    failed (decide e ec) = true ->
    delivery os w (id, read_some_done ec data)
      (tcp_close os
         (world_after w (tcpSock w) (udpSock w) (without id (pending w))
            (next_id w)
            [cerr ("SocketBridge: TCP failed read: " ++ show_ec (decide e ec))]))
| deliver_read_eof id e ec got data :
    find_op id (pending w) = Some {| op := op_read got; early := e |} ->
    failed (decide e ec) = false ->
    firstn (packetSize - got) data = [] ->
    delivery os w (id, read_some_done ec data)
      (tcp_close os
         (world_after w (tcpSock w) (udpSock w) (without id (pending w))
            (next_id w)
            [cerr ("SocketBridge: TCP failed read: " ++ show_ec err_eof)]))
| deliver_read_partial id e ec got data :
    find_op id (pending w) = Some {| op := op_read got; early := e |} ->
    failed (decide e ec) = false ->
    firstn (packetSize - got) data <> [] ->
    got + List.length (firstn (packetSize - got) data) < packetSize ->
    delivery os w (id, read_some_done ec data)
      (Val tt
         (world_after w
            (with_tcp_buffer
               (splice got (firstn (packetSize - got) data)
                       (tcp_recv_buffer_ (tcpSock w)))
               (tcpSock w))
            (udpSock w)
            (replaced id
               {| op := op_read (got + List.length (firstn (packetSize - got) data));
                  early := None |}
               (pending w))
            (next_id w) []))
| deliver_read_complete id e ec got data :
    find_op id (pending w) = Some {| op := op_read got; early := e |} ->
    failed (decide e ec) = false ->
    firstn (packetSize - got) data <> [] ->
    got + List.length (firstn (packetSize - got) data) = packetSize ->
    delivery os w (id, read_some_done ec data)
      (Val tt
         (world_after w
            (with_tcp_buffer
               (splice got (firstn (packetSize - got) data)
                       (tcp_recv_buffer_ (tcpSock w)))
               (tcpSock w))
            (udpSock w)
            (without id (pending w)
             ++ [(next_id w,
                  {| op := op_send_to
                             (splice got (firstn (packetSize - got) data)
                                     (tcp_recv_buffer_ (tcpSock w)))
                             (remote_endpoint_ (udpSock w));
                     early := udp_early (udp_socket_ (udpSock w)) |});
                 (S (next_id w),
                  {| op := op_read 0;
                     early := tcp_early (tcp_socket_ (tcpSock w)) |})])
            (S (S (next_id w)))
            [issue_async_send_to
               (splice got (firstn (packetSize - got) data)
                       (tcp_recv_buffer_ (tcpSock w)))
               (remote_endpoint_ (udpSock w));
             issue_async_read]))
| deliver_write_ok id e ec m :
    find_op id (pending w) = Some {| op := op_write m; early := e |} ->
    failed (decide e ec) = false ->
    delivery os w (id, write_done ec)
      (Val tt (world_after w (tcpSock w) (udpSock w) (without id (pending w))
                 (next_id w) [tcp_wrote m]))
| deliver_write_error id e ec m :
    find_op id (pending w) = Some {| op := op_write m; early := e |} ->
    failed (decide e ec) = true ->
    delivery os w (id, write_done ec)
      (tcp_close os
         (world_after w (tcpSock w) (udpSock w) (without id (pending w))
            (next_id w)
            [cerr ("SocketBridge: TCP writing failed: "
                   ++ show_ec (decide e ec))]))
| deliver_receive_ok id e ec sender d :
    find_op id (pending w) = Some {| op := op_receive_from; early := e |} ->
    failed (decide e ec) = false ->
    delivery os w (id, receive_from_done ec sender d)
      (Val tt
         (world_after w (tcpSock w)
            (with_received sender
               (splice 0 (firstn packetSize d) (udp_recv_buffer_ (udpSock w)))
               (udpSock w))
            (without id (pending w)
             ++ [(next_id w,
                  {| op := op_write
                             (splice 0 (firstn packetSize d)
                                     (udp_recv_buffer_ (udpSock w)));
                     early := tcp_early (tcp_socket_ (tcpSock w)) |});
                 (S (next_id w),
                  {| op := op_receive_from;
                     early := udp_early (udp_socket_ (udpSock w)) |})])
            (S (S (next_id w)))
            [issue_async_write
               (splice 0 (firstn packetSize d) (udp_recv_buffer_ (udpSock w)));
             issue_async_receive_from]))
| deliver_receive_error id e ec sender d :
    find_op id (pending w) = Some {| op := op_receive_from; early := e |} ->
    failed (decide e ec) = true ->
    delivery os w (id, receive_from_done ec sender d)
      (Val tt (world_after w (tcpSock w) (udpSock w) (without id (pending w))
                 (next_id w)
                 [cerr ("SocketBridge: UDP reading failed: "
                        ++ show_ec (decide e ec))]))
| deliver_send_ok id e ec m dst :
    find_op id (pending w) = Some {| op := op_send_to m dst; early := e |} ->
    failed (decide e ec) = false ->
    delivery os w (id, send_to_done ec)
      (Val tt (world_after w (tcpSock w) (udpSock w) (without id (pending w))
                 (next_id w) [udp_sent_to m dst]))
| deliver_send_error id e ec m dst :
    find_op id (pending w) = Some {| op := op_send_to m dst; early := e |} ->
    failed (decide e ec) = true ->
    delivery os w (id, send_to_done ec)
      (Val tt (world_after w (tcpSock w) (udpSock w) (without id (pending w))
                 (next_id w)
                 [cerr ("SocketBridge: UDP sending failed: "
                        ++ show_ec (decide e ec))])).

(** What a call of [startConnections] has produced. *)
Definition observed (t : termination) : list action :=
  match t with
  | returned o => o
  | running w => out w
  | crashed => []
  end.

(** The world in which a sample session stands after [schedule]. *)
Definition session (schedule : list event) : world :=
  match startConnections quiet_os bridge schedule with
  | running w => w
  | _ => raw_world quiet_os
  end.

(** The endpoint built from the configuration by [UDP_Server]'s
    constructor. *)
Definition configured_endpoint (os : environment) (self : SocketBridge)
    : option endpoint :=
  match from_string os (udpIp self) with
  | inr a => Some {| address := a; port := (udpPort self mod 65536)%N |}
  | inl _ => None
  end.

(** The sender's address that delivering [ev] stores in [remote_endpoint_]. *)
Definition received_from (w : world) (ev : event) : option endpoint :=
  match find_op (fst ev) (pending w), snd ev with
  | Some s, receive_from_done ec sender _ =>
      match op s with
      | op_receive_from =>
          if failed (decide (early s) ec) then None else Some sender
      | _ => None
      end
  | _, _ => None
  end.

(** The destinations of the sends started in [acts]. *)
Definition send_destinations (acts : list action) : list endpoint :=
  flat_map (fun a => match a with
                     | issue_async_send_to _ d => [d]
                     | _ => []
                     end) acts.

(** The connection is established, a datagram arrives from [peer], a packet
    arrives from the TCP peer. *)
Definition stranger_schedule : list event :=
  [(1, connect_done no_error);
   (0, receive_from_done no_error peer (packet_of x01));
   (2, read_some_done no_error (packet_of x07))].

(** The connection is established, a datagram of three bytes arrives. *)
Definition short_schedule : list event :=
  [(1, connect_done no_error);
   (0, receive_from_done no_error peer [x01; x02; x03])].

Definition err_connection_reset : error_code := system_error_code 104.

(** One packet each way; the write and the send are outstanding. *)
Definition both_ways_schedule : list event :=
  [(1, connect_done no_error);
   (0, receive_from_done no_error peer (packet_of x01));
   (2, read_some_done no_error (packet_of x07))].

(** Lines on the console, as opposed to socket activity. *)
Definition is_console (a : action) : bool :=
  match a with
  | cout _ | cerr _ => true
  | _ => false
  end.

(** No name server. *)
Definition no_dns_os : environment :=
  {| resolve := fun _ _ => inl {| what := "resolve: Host not found" |};
     udp_open := None;
     from_string := fun h => inr h;
     set_option_ec := no_error;
     ec_message := fun ec => show_ec ec;
     udp_bind := fun _ => None;
     close_ec := no_error;
     tcp_garbage := [];
     udp_garbage := [] |}.

(** The UDP port is taken. *)
Definition busy_port_os : environment :=
  {| resolve := fun h p => inr [ {| address := h; port := 9000 |} ];
     udp_open := None;
     from_string := fun h => inr h;
     set_option_ec := no_error;
     ec_message := fun ec => show_ec ec;
     udp_bind := fun _ => Some {| what := "bind: Address already in use" |};
     close_ec := no_error;
     tcp_garbage := [];
     udp_garbage := [] |}.

(** The call went through an unset pointer. *)
Definition is_crashed (t : termination) : bool :=
  match t with
  | crashed => true
  | _ => false
  end.

(** After one datagram the next receive fails. *)
Definition failed_receive_schedule : list event :=
  [(1, connect_done no_error);
   (0, receive_from_done no_error peer (packet_of x01));
   (4, receive_from_done err_connection_refused peer [])].

(** ** Construction, socket states and framing: further definitions *)

(** The first line [startConnections] prints. *)
Definition start_line (self : SocketBridge) : string :=
  "Starting SocketBridge, connecting TCP "
  ++ tcpIp self ++ ":" ++ tcpPort self
  ++ " to UDP " ++ udpIp self ++ ":" ++ show_N (udpPort self).

(** What [UDP_Server]'s constructor prints before it binds: its first line
    and, when [set_option] failed, the error's message. *)
Definition udp_banner (os : environment) : list action :=
  cout "SocketBridge: UDP Server connected"
  :: (if failed (set_option_ec os)
      then [cerr (ec_message os (set_option_ec os))]
      else []).

(** The endpoint [UDP_Server]'s constructor builds from an address and a
    port given as [uint]. *)
Definition udp_endpoint (a : string) (port0 : N) : endpoint :=
  {| address := a; port := (port0 mod 65536)%N |}.

(** The states [socket_] of [TCP_Client] can be in later, given its state
    now. *)
Definition tcp_after (s s' : tcp_socket) : bool :=
  match s, s' with
  | connecting, _ => true
  | connected, (connected | closed) => true
  | not_connected, (not_connected | closed) => true
  | closed, closed => true
  | _, _ => false
  end.

(** Packets in actions and in outstanding operations have [packetSize]
    bytes. *)
Definition framed_action (a : action) : Prop :=
  match a with
  | issue_async_write m | tcp_wrote m
  | issue_async_send_to m _ | udp_sent_to m _ => List.length m = packetSize
  | _ => True
  end.

Definition framed_op (o : async_op) : Prop :=
  match o with
  | op_write m | op_send_to m _ => List.length m = packetSize
  | _ => True
  end.

(** A world whose output and outstanding operations are framed. *)
Definition framed (w : world) : Prop :=
  Forall framed_action (out w) /\
  Forall (fun e => framed_op (op (snd e))) (pending w).

Definition is_connect (o : async_op) : bool :=
  match o with op_connect _ => true | _ => false end.

(** A completion that is not a failed receive. *)
Definition no_receive_failure (ev : event) : Prop :=
  match snd ev with
  | receive_from_done ec _ _ => failed ec = false
  | _ => True
  end.

(** Receives are started on an open socket. *)
Definition receives_unhindered (w : world) : Prop :=
  Forall (fun e => op (snd e) = op_receive_from -> early (snd e) = None)
         (pending w).

Definition is_receive_completion (c : completion) : bool :=
  match c with receive_from_done _ _ _ => true | _ => false end.

Definition is_read_completion (c : completion) : bool :=
  match c with read_some_done _ _ => true | _ => false end.

(** Starting a TCP read, or a UDP send. *)
Definition starts_inbound (a : action) : bool :=
  match a with
  | issue_async_read | issue_async_send_to _ _ => true
  | _ => false
  end.

(** [SO_REUSEADDR] cannot be set; everything else succeeds. *)
Definition no_reuse_os : environment :=
  {| resolve := fun h p => inr [ {| address := h; port := 9000 |} ];
     udp_open := None;
     from_string := fun h => inr h;
     set_option_ec := system_error_code 92;
     ec_message := fun ec => "Protocol not available";
     udp_bind := fun _ => None;
     close_ec := no_error;
     tcp_garbage := [];
     udp_garbage := [] |}.

(** The sample sockets constructed but not yet wired to each other. *)
Definition unwired_world : world :=
  match construct quiet_os bridge (raw_world quiet_os) with
  | Val _ w => w
  | _ => raw_world quiet_os
  end.

(** A UDP port that does not fit 16 bits. *)
Definition wide_port_bridge : SocketBridge :=
  SocketBridge_new "127.0.0.1" 9000 "127.0.0.1" 70000.

(** ** Exceptions from [close]: further definitions *)

(** The exception [socket_.close()] throws when the system reports an error
    for the close. *)
Definition close_exception (os : environment) : exception :=
  {| what := "close: " ++ ec_message os (close_ec os) |}.

(** Whether [socket_.close()] throws on a socket in state [s]: a socket that
    is not open is not handed to the system. *)
Definition close_throws (os : environment) (s : tcp_socket) : bool :=
  match s with
  | closed => false
  | _ => failed (close_ec os)
  end.

(** The system reports an input/output error when the TCP socket is closed;
    every other call succeeds. *)
Definition failing_close_os : environment :=
  {| resolve := fun h p => inr [ {| address := h; port := 9000 |} ];
     udp_open := None;
     from_string := fun h => inr h;
     set_option_ec := no_error;
     ec_message := fun ec => "Input/output error";
     udp_bind := fun _ => None;
     close_ec := system_error_code 5;
     tcp_garbage := [];
     udp_garbage := [] |}.

(** The world in which a session of the sample bridge stands after
    [schedule], in the environment [os]. *)
Definition session_in (os : environment) (schedule : list event) : world :=
  match startConnections os bridge schedule with
  | running w => w
  | _ => raw_world os
  end.

(** The connect is refused, then a datagram arrives and is handed to
    [handle_write]. *)
Definition refused_schedule : list event :=
  [(1, connect_done err_connection_refused);
   (0, receive_from_done no_error peer (packet_of x01))].

(** The connection is established, three bytes arrive from the TCP peer,
    then the stream ends. *)
Definition short_read_schedule : list event :=
  [(1, connect_done no_error);
   (2, read_some_done no_error [x01; x02; x03]);
   (2, read_some_done no_error [])].

(** The connection is established, then the peer resets it. *)
Definition reset_schedule : list event :=
  [(1, connect_done no_error);
   (2, read_some_done err_connection_reset [])].

(** ** Lists of outstanding operations *)

Lemma count_ops_app k p q :
  count_ops k (p ++ q) = count_ops k p + count_ops k q.
Proof.
  unfold count_ops. now rewrite filter_app, length_app.
Qed.

Lemma count_ops_filter_le k f p :
  count_ops k (filter f p) <= count_ops k p.
Proof.
  unfold count_ops. induction p as [|a p IH]; simpl; [lia|].
  destruct (f a); simpl; destruct (k (op (snd a))); simpl; lia.
Qed.

Lemma find_op_cons id a p :
  find_op id (a :: p) =
  if Nat.eqb (fst a) id then Some (snd a) else find_op id p.
Proof.
  unfold find_op. cbn [find]. now destruct (Nat.eqb (fst a) id).
Qed.

Lemma find_op_In id p s : find_op id p = Some s -> In (id, s) p.
Proof.
  induction p as [|a p IH]; [discriminate|].
  rewrite find_op_cons. destruct (Nat.eqb (fst a) id) eqn:E.
  - intros H. injection H as <-. apply Nat.eqb_eq in E. subst id.
    left. now destruct a.
  - intros H. right. auto.
Qed.

Lemma find_op_not_In id p : ~ In id (map fst p) -> find_op id p = None.
Proof.
  induction p as [|a p IH]; [reflexivity|].
  simpl. intros H. rewrite find_op_cons.
  destruct (Nat.eqb (fst a) id) eqn:E.
  - apply Nat.eqb_eq in E. tauto.
  - apply IH. tauto.
Qed.

Lemma count_ops_remove k id p s :
  find_op id p = Some s -> k (op s) = true ->
  S (count_ops k (without id p)) <= count_ops k p.
Proof.
  induction p as [|a p IH]; [discriminate|].
  rewrite find_op_cons. unfold count_ops, without in *. simpl.
  destruct (Nat.eqb (fst a) id) eqn:E; simpl.
  - intros H Hk. injection H as <-. rewrite Hk. simpl.
    apply le_n_S. apply (count_ops_filter_le k).
  - intros H Hk. specialize (IH H Hk).
    destruct (k (op (snd a))); simpl; lia.
Qed.

Lemma without_fresh id p :
  ~ In id (map fst p) -> without id p = p.
Proof.
  unfold without. induction p as [|a p IH]; [reflexivity|].
  simpl. intros H. destruct (Nat.eqb (fst a) id) eqn:E; simpl.
  - apply Nat.eqb_eq in E. tauto.
  - f_equal. apply IH. tauto.
Qed.

Lemma replaced_fresh id (s : started) p :
  ~ In id (map fst p) -> replaced id s p = p.
Proof.
  unfold replaced. induction p as [|a p IH]; [reflexivity|].
  simpl. intros H. destruct (Nat.eqb (fst a) id) eqn:E; simpl.
  - apply Nat.eqb_eq in E. tauto.
  - f_equal. apply IH. tauto.
Qed.

Lemma count_ops_replace k id p s s' :
  NoDup (map fst p) -> find_op id p = Some s -> k (op s') = k (op s) ->
  count_ops k (replaced id s' p) = count_ops k p.
Proof.
  induction p as [|a p IH]; [discriminate|].
  simpl. intros Hnd. inversion Hnd as [|x l Hnin Hnd']; subst.
  rewrite find_op_cons. destruct (Nat.eqb (fst a) id) eqn:E.
  - intros H Hk. injection H as <-. apply Nat.eqb_eq in E. subst id.
    rewrite replaced_fresh by assumption.
    unfold count_ops. simpl. rewrite Hk.
    now destruct (k (op (snd a))).
  - intros H Hk. specialize (IH Hnd' H Hk).
    unfold count_ops in *. simpl. destruct (k (op (snd a))); simpl; lia.
Qed.

Lemma map_fst_replaced id (s : started) p :
  map fst (replaced id s p) = map fst p.
Proof.
  unfold replaced. induction p as [|a p IH]; [reflexivity|].
  simpl. rewrite IH. destruct (Nat.eqb (fst a) id) eqn:E; [|reflexivity].
  apply Nat.eqb_eq in E. now rewrite E.
Qed.

Lemma In_map_fst_filter (f : op_id * started -> bool) i p :
  In i (map fst (filter f p)) -> In i (map fst p).
Proof.
  rewrite !in_map_iff. intros [x [Hx Hin]]. apply filter_In in Hin.
  exists x. tauto.
Qed.

Lemma NoDup_map_fst_filter (f : op_id * started -> bool) p :
  NoDup (map fst p) -> NoDup (map fst (filter f p)).
Proof.
  induction p as [|a p IH]; simpl; [auto|].
  intros H. inversion H as [|x l Hnin Hnd]; subst.
  destruct (f a); simpl; [|auto].
  constructor; [|auto]. intros Hin. apply Hnin.
  eapply In_map_fst_filter; eauto.
Qed.

Lemma NoDup_map_fst_snoc p i (s : started) n :
  NoDup (map fst p) -> Forall (fun e => fst e < n) p -> n <= i ->
  NoDup (map fst (p ++ [(i, s)])).
Proof.
  intros Hnd Hf Hle. rewrite map_app. simpl.
  apply NoDup_app; [assumption | constructor; [intros [] | constructor] | ].
  intros x Hin [Hx | []]. subst x.
  apply in_map_iff in Hin. destruct Hin as [e [He Hin]].
  rewrite Forall_forall in Hf. specialize (Hf e Hin). lia.
Qed.

Lemma Forall_fresh_filter (f : op_id * started -> bool) n p :
  Forall (fun e => fst e < n) p -> Forall (fun e => fst e < n) (filter f p).
Proof.
  rewrite !Forall_forall. intros H x Hx. apply filter_In in Hx. apply H. tauto.
Qed.

Lemma Forall_fresh_replaced id (s : started) n p :
  Forall (fun e => fst e < n) p ->
  Forall (fun e => fst e < n) (replaced id s p).
Proof.
  unfold replaced. rewrite !Forall_forall. intros H x Hx. apply in_map_iff in Hx.
  destruct Hx as [e [He Hin]]. specialize (H e Hin).
  destruct (Nat.eqb (fst e) id) eqn:E; subst x; [|assumption].
  apply Nat.eqb_eq in E. simpl. lia.
Qed.

Lemma Forall_fresh_snoc n p i (s : started) :
  Forall (fun e : op_id * started => fst e < n) p ->
  i <= n -> Forall (fun e => fst e < S n) (p ++ [(i, s)]).
Proof.
  intros H Hi. apply Forall_app. split.
  - eapply Forall_impl; [|exact H]. simpl. intros; lia.
  - constructor; [simpl; lia | constructor].
Qed.

Lemma Forall_fresh_mono n m p :
  Forall (fun e : op_id * started => fst e < n) p -> n <= m ->
  Forall (fun e => fst e < m) p.
Proof.
  intros H Hle. eapply Forall_impl; [|exact H]. simpl. intros; lia.
Qed.

Lemma well_numbered_without n id p :
  well_numbered n p -> well_numbered n (without id p).
Proof.
  intros [Hf Hn]. split.
  - now apply Forall_fresh_filter.
  - now apply NoDup_map_fst_filter.
Qed.

Lemma well_numbered_replaced n id s p :
  well_numbered n p -> well_numbered n (replaced id s p).
Proof.
  intros [Hf Hn]. split.
  - now apply Forall_fresh_replaced.
  - now rewrite map_fst_replaced.
Qed.

Lemma well_numbered_push n s p :
  well_numbered n p -> well_numbered (S n) (p ++ [(n, s)]).
Proof.
  intros [Hf Hn]. split.
  - apply Forall_fresh_snoc; auto.
  - eapply NoDup_map_fst_snoc; eauto.
Qed.

Lemma well_numbered_push2 n s1 s2 p :
  well_numbered n p ->
  well_numbered (S (S n)) (p ++ [(n, s1); (S n, s2)]).
Proof.
  intros H. change (p ++ [(n, s1); (S n, s2)])
    with (p ++ [(n, s1)] ++ [(S n, s2)]).
  rewrite app_assoc. now apply well_numbered_push, well_numbered_push.
Qed.

Lemma well_numbered_find_lt n id p s :
  well_numbered n p -> find_op id p = Some s -> id < n.
Proof.
  intros [Hf _] H. apply find_op_In in H.
  rewrite Forall_forall in Hf. exact (Hf _ H).
Qed.

Lemma count_ops_cons k a p :
  count_ops k (a :: p) = (if k (op (snd a)) then 1 else 0) + count_ops k p.
Proof.
  unfold count_ops. simpl. now destruct (k (op (snd a))).
Qed.

Lemma count_ops_nil k : count_ops k [] = 0.
Proof. reflexivity. Qed.

Lemma Val_world_inj (a b : unit) (w w' : world) :
  Val a w = Val b w' -> w = w'.
Proof.
  intros H. now injection H.
Qed.

Lemma splice_length off chunk (a : array) :
  off + List.length chunk <= List.length a ->
  List.length (splice off chunk a) = List.length a.
Proof.
  intros H. unfold splice.
  rewrite !length_app, length_firstn, length_skipn. lia.
Qed.

Lemma firstn_packet_length (d : list byte) :
  List.length (firstn packetSize d) <= packetSize.
Proof.
  rewrite length_firstn. lia.
Qed.

(** ** Tactics *)

Ltac unfold_program :=
  unfold run_one, complete_connect, complete_read, complete_write,
    complete_receive_from, complete_send_to,
    TCP_Client_on_connect, TCP_Client_on_read, TCP_Client_on_write,
    UDP_Server_on_receive, UDP_Server_on_send,
    TCP_Client_start_read, UDP_Server_start_read,
    TCP_Client_handle_write, UDP_Server_handle_send,
    async_read, async_write, async_receive_from, async_send_to,
    remove_op, replace_op, start_op, emit, set_tcp, set_udp, set_pending,
    bind, ret, get, throw, undefined.

Ltac simpl_world :=
  cbn [fst snd op early negb tcpSock udpSock pending next_id out
       tcp_socket_ tcp_remote_endpoint_ tcp_recv_buffer_ udpServer
       udp_socket_ remote_endpoint_ udp_recv_buffer_ tcpServer
       with_socket with_tcp_buffer with_udpServer with_received
       with_tcpServer].

Ltac simpl_after := unfold world_after, closed_world; simpl_world.

Ltac compute_construction :=
  cbv beta iota zeta delta
    [construct UDP_Server_new TCP_Client_new setUdp setTcp
     async_connect UDP_Server_start_read async_receive_from start_op
     emit set_tcp set_udp bind ret get throw raw_world
     fst snd op early negb tcpSock udpSock pending next_id out
     tcp_socket_ tcp_remote_endpoint_ tcp_recv_buffer_ udpServer
     udp_socket_ remote_endpoint_ udp_recv_buffer_ tcpServer
     with_socket with_tcp_buffer with_udpServer with_received with_tcpServer].

Ltac count_ops_tac :=
  rewrite ?count_ops_app, ?count_ops_cons, ?count_ops_nil;
  cbn [is_receive is_read is_connect_or_read op snd];
  lia.

Ltac in_cases H :=
  simpl in H;
  repeat match type of H with
         | _ \/ _ => destruct H as [H|H]
         end;
  try discriminate H; try contradiction.

(** ** What one completion does *)

Section Effects.

Context (os : environment).

Lemma run_one_idle ev w :
  find_op (fst ev) (pending w) = None -> run_one os ev w = Val tt w.
Proof.
  intros H. unfold run_one, bind, get, ret. now rewrite H.
Qed.

Lemma run_one_receive_ok w id e ec sender d :
  find_op id (pending w) = Some {| op := op_receive_from; early := e |} ->
  failed (decide e ec) = false ->
  tcpServer (udpSock w) = Some addr_tcpSock ->
  let b := splice 0 (firstn packetSize d) (udp_recv_buffer_ (udpSock w)) in
  run_one os (id, receive_from_done ec sender d) w =
  Val tt (world_after w (tcpSock w) (with_received sender b (udpSock w))
            (without id (pending w)
             ++ [(next_id w,
                  {| op := op_write b;
                     early := tcp_early (tcp_socket_ (tcpSock w)) |});
                 (S (next_id w),
                  {| op := op_receive_from;
                     early := udp_early (udp_socket_ (udpSock w)) |})])
            (S (S (next_id w)))
            [issue_async_write b; issue_async_receive_from]).
Proof.
  intros Hf Hec Hp b. unfold_program. simpl_world.
  rewrite Hf. simpl_world. rewrite Hec. simpl_world. rewrite Hp.
  simpl_world. unfold world_after. now rewrite <- !app_assoc.
Qed.

Lemma run_one_receive_error w id e ec sender d :
  find_op id (pending w) = Some {| op := op_receive_from; early := e |} ->
  failed (decide e ec) = true ->
  run_one os (id, receive_from_done ec sender d) w =
  Val tt (world_after w (tcpSock w) (udpSock w) (without id (pending w))
            (next_id w)
            [cerr ("SocketBridge: UDP reading failed: "
                   ++ show_ec (decide e ec))]).
Proof.
  intros Hf Hec. unfold_program. simpl_world.
  rewrite Hf. simpl_world. rewrite Hec. reflexivity.
Qed.

Lemma run_one_send_ok w id e ec m dst :
  find_op id (pending w) = Some {| op := op_send_to m dst; early := e |} ->
  failed (decide e ec) = false ->
  run_one os (id, send_to_done ec) w =
  Val tt (world_after w (tcpSock w) (udpSock w) (without id (pending w))
            (next_id w) [udp_sent_to m dst]).
Proof.
  intros Hf Hec. unfold_program. simpl_world.
  rewrite Hf. simpl_world. rewrite Hec. reflexivity.
Qed.

Lemma run_one_send_error w id e ec m dst :
  find_op id (pending w) = Some {| op := op_send_to m dst; early := e |} ->
  failed (decide e ec) = true ->
  run_one os (id, send_to_done ec) w =
  Val tt (world_after w (tcpSock w) (udpSock w) (without id (pending w))
            (next_id w)
            [cerr ("SocketBridge: UDP sending failed: "
                   ++ show_ec (decide e ec))]).
Proof.
  intros Hf Hec. unfold_program. simpl_world.
  rewrite Hf. simpl_world. rewrite Hec. reflexivity.
Qed.

Lemma run_one_write_ok w id e ec m :
  find_op id (pending w) = Some {| op := op_write m; early := e |} ->
  failed (decide e ec) = false ->
  run_one os (id, write_done ec) w =
  Val tt (world_after w (tcpSock w) (udpSock w) (without id (pending w))
            (next_id w) [tcp_wrote m]).
Proof.
  intros Hf Hec. unfold_program. simpl_world.
  rewrite Hf. simpl_world. rewrite Hec. reflexivity.
Qed.

Lemma run_one_write_error w id e ec m :
  find_op id (pending w) = Some {| op := op_write m; early := e |} ->
  failed (decide e ec) = true ->
  run_one os (id, write_done ec) w =
  tcp_close os
    (world_after w (tcpSock w) (udpSock w) (without id (pending w))
       (next_id w)
       [cerr ("SocketBridge: TCP writing failed: " ++ show_ec (decide e ec))]).
Proof.
  intros Hf Hec. unfold_program. simpl_world.
  rewrite Hf. simpl_world. rewrite Hec. reflexivity.
Qed.

Lemma run_one_connect_ok w id e ec eps :
  find_op id (pending w) = Some {| op := op_connect eps; early := e |} ->
  failed (decide e ec) = false ->
  let s := connect_result (tcp_socket_ (tcpSock w)) (decide e ec) in
  run_one os (id, connect_done ec) w =
  Val tt (world_after w (with_socket s (tcpSock w)) (udpSock w)
            (without id (pending w)
             ++ [(next_id w, {| op := op_read 0; early := tcp_early s |})])
            (S (next_id w))
            [cout "SocketBridge: TCP client connected"; issue_async_read]).
Proof.
  intros Hf Hec s. unfold_program. simpl_world.
  rewrite Hf. simpl_world. rewrite Hec. simpl_world.
  unfold world_after. now rewrite <- !app_assoc.
Qed.

Lemma run_one_connect_error w id e ec eps :
  find_op id (pending w) = Some {| op := op_connect eps; early := e |} ->
  failed (decide e ec) = true ->
  let s := connect_result (tcp_socket_ (tcpSock w)) (decide e ec) in
  run_one os (id, connect_done ec) w =
  Val tt (world_after w (with_socket s (tcpSock w)) (udpSock w)
            (without id (pending w)) (next_id w)
            [cerr ("SocketBridge: tcp failed to connect: "
                   ++ show_ec (decide e ec))]).
Proof.
  intros Hf Hec s. unfold_program. simpl_world.
  rewrite Hf. simpl_world. rewrite Hec. reflexivity.
Qed.

Lemma run_one_read_error w id e ec got data :
  find_op id (pending w) = Some {| op := op_read got; early := e |} ->
  failed (decide e ec) = true ->
  run_one os (id, read_some_done ec data) w =
  tcp_close os
    (world_after w (tcpSock w) (udpSock w) (without id (pending w))
       (next_id w)
       [cerr ("SocketBridge: TCP failed read: " ++ show_ec (decide e ec))]).
Proof.
  intros Hf Hec. unfold_program. simpl_world.
  rewrite Hf. simpl_world. rewrite Hec. reflexivity.
Qed.

Lemma run_one_read_eof w id e ec got data :
  find_op id (pending w) = Some {| op := op_read got; early := e |} ->
  failed (decide e ec) = false ->
  firstn (packetSize - got) data = [] ->
  run_one os (id, read_some_done ec data) w =
  tcp_close os
    (world_after w (tcpSock w) (udpSock w) (without id (pending w))
       (next_id w)
       [cerr ("SocketBridge: TCP failed read: " ++ show_ec err_eof)]).
Proof.
  intros Hf Hec Hd. unfold_program. simpl_world.
  rewrite Hf. simpl_world. rewrite Hec, Hd. reflexivity.
Qed.

Lemma run_one_read_partial w id e ec got data :
  find_op id (pending w) = Some {| op := op_read got; early := e |} ->
  failed (decide e ec) = false ->
  let chunk := firstn (packetSize - got) data in
  chunk <> [] ->
  got + List.length chunk <> packetSize ->
  run_one os (id, read_some_done ec data) w =
  Val tt (world_after w
            (with_tcp_buffer (splice got chunk (tcp_recv_buffer_ (tcpSock w)))
                             (tcpSock w))
            (udpSock w)
            (replaced id {| op := op_read (got + List.length chunk);
                            early := None |} (pending w))
            (next_id w) []).
Proof.
  intros Hf Hec chunk Hne Hlen. unfold_program. simpl_world.
  rewrite Hf. simpl_world. rewrite Hec. fold chunk.
  destruct chunk as [|c cs] eqn:Hc; [congruence|].
  apply Nat.eqb_neq in Hlen. rewrite Hlen.
  unfold world_after. now rewrite app_nil_r.
Qed.

Lemma run_one_read_complete w id e ec got data :
  find_op id (pending w) = Some {| op := op_read got; early := e |} ->
  failed (decide e ec) = false ->
  let chunk := firstn (packetSize - got) data in
  chunk <> [] ->
  got + List.length chunk = packetSize ->
  udpServer (tcpSock w) = Some addr_udpSock ->
  let b := splice got chunk (tcp_recv_buffer_ (tcpSock w)) in
  run_one os (id, read_some_done ec data) w =
  Val tt (world_after w (with_tcp_buffer b (tcpSock w)) (udpSock w)
            (without id (pending w)
             ++ [(next_id w,
                  {| op := op_send_to b (remote_endpoint_ (udpSock w));
                     early := udp_early (udp_socket_ (udpSock w)) |});
                 (S (next_id w),
                  {| op := op_read 0;
                     early := tcp_early (tcp_socket_ (tcpSock w)) |})])
            (S (S (next_id w)))
            [issue_async_send_to b (remote_endpoint_ (udpSock w));
             issue_async_read]).
Proof.
  intros Hf Hec chunk Hne Hlen Hp b. unfold_program. simpl_world.
  rewrite Hf. simpl_world. rewrite Hec. fold chunk. subst b.
  destruct chunk as [|c cs] eqn:Hc; [congruence|].
  apply Nat.eqb_eq in Hlen. rewrite Hlen.
  simpl_world. rewrite Hp. simpl_world.
  unfold world_after. now rewrite <- !app_assoc.
Qed.

Lemma tcp_close_result w :
  tcp_close os w = Val tt (closed_world w) \/
  exists e, tcp_close os w = Exn e (closed_world w).
Proof.
  unfold tcp_close, bind, get. simpl_world.
  destruct w as [[s r b p] u pe n o]; unfold closed_world; simpl.
  destruct s; simpl; try (now left);
    unfold ret, throw, set_tcp; simpl;
    destruct (failed (close_ec os)); eauto.
Qed.

(** [socket_.close()] throws exactly when the socket is open and the system
    reports an error. *)
Lemma tcp_close_exact w :
  tcp_close os w =
  if close_throws os (tcp_socket_ (tcpSock w))
  then Exn (close_exception os) (closed_world w)
  else Val tt (closed_world w).
Proof.
  unfold tcp_close, bind, get. simpl_world.
  destruct w as [[s r b p] u pe n o]; unfold closed_world; simpl.
  destruct s; simpl; try reflexivity;
    unfold ret, throw, set_tcp, close_exception; simpl;
    destruct (failed (close_ec os)); reflexivity.
Qed.

Lemma closed_world_closed w :
  tcp_socket_ (tcpSock w) = closed -> closed_world w = w.
Proof.
  destruct w as [[s r b p] u pe n o]. simpl. intros ->. reflexivity.
Qed.

Lemma tcp_close_fields w r w' :
  tcp_close os w = r -> (r = Val tt w' \/ exists e, r = Exn e w') ->
  w' = closed_world w.
Proof.
  intros H Hr. destruct (tcp_close_result w) as [Hc|[x Hc]];
    rewrite Hc in H; subst r; destruct Hr as [Hr|[y Hr]]; congruence.
Qed.

Lemma run_one_mismatch w id s c :
  find_op id (pending w) = Some s ->
  match op s, c with
  | op_connect _, connect_done _
  | op_read _, read_some_done _ _
  | op_write _, write_done _
  | op_receive_from, receive_from_done _ _ _
  | op_send_to _ _, send_to_done _ => False
  | _, _ => True
  end ->
  run_one os (id, c) w = Val tt w.
Proof.
  intros Hf Hm. unfold run_one, bind, get, ret. simpl_world. rewrite Hf.
  destruct (op s), c; try contradiction; reflexivity.
Qed.

End Effects.

(** ** The invariant of a session *)

Section Invariant.

Context (os : environment).

Lemma uninitialised_length g : List.length (uninitialised g) = packetSize.
Proof.
  unfold uninitialised.
  rewrite length_firstn, length_app, repeat_length. lia.
Qed.

(** The world in which the loop is entered. *)
Lemma wired_world self w :
  wired os self w ->
  exists a eps,
    from_string os (udpIp self) = inr a /\
    resolve os (tcpIp self) (tcpPort self) = inr eps /\
    tcpSock w =
      {| tcp_socket_ := match eps with [] => closed | _ :: _ => connecting end;
         tcp_remote_endpoint_ := any_endpoint;
         tcp_recv_buffer_ := uninitialised (tcp_garbage os);
         udpServer := Some addr_udpSock |} /\
    udpSock w =
      {| udp_socket_ := true;
         remote_endpoint_ :=
           {| address := a; port := (udpPort self mod 65536)%N |};
         udp_recv_buffer_ := uninitialised (udp_garbage os);
         tcpServer := Some addr_tcpSock |} /\
    pending w =
      [(0, {| op := op_receive_from; early := None |});
       (1, {| op := op_connect eps;
              early := match eps with
                       | [] => Some err_not_found
                       | _ :: _ => None
                       end |})] /\
    next_id w = 2.
Proof.
  unfold wired. compute_construction.
  destruct (resolve os (tcpIp self) (tcpPort self)) as [e|eps]; [discriminate|].
  destruct (udp_open os); [discriminate|].
  destruct (from_string os (udpIp self)) as [e|a]; [discriminate|].
  destruct (failed (set_option_ec os));
    (destruct (udp_bind os _); [discriminate|]);
    destruct eps; intros H; injection H as <-;
    exists a; eexists; repeat split; reflexivity.
Qed.

Lemma wired_invariant self w : wired os self w -> invariant w.
Proof.
  intros H. destruct (wired_world _ _ H) as (a & eps & _ & _ & Ht & Hu & Hp & Hn).
  constructor; rewrite ?Ht, ?Hu, ?Hp, ?Hn; simpl;
    try reflexivity; try apply uninitialised_length.
  split; [repeat constructor|].
  constructor; [simpl; intros [H1|[]]; discriminate|].
  constructor; [intros []|constructor].
Qed.

Lemma closed_world_invariant w : invariant w -> invariant (closed_world w).
Proof.
  intros [I1 I2 I3 I4 I5 I6 I7 I8]. constructor; assumption.
Qed.

Lemma tcp_close_invariant w :
  invariant w ->
  exists w', (tcp_close os w = Val tt w' \/ exists e, tcp_close os w = Exn e w')
             /\ invariant w'.
Proof.
  intros I. exists (closed_world w). split.
  - apply tcp_close_result.
  - now apply closed_world_invariant.
Qed.

(** A handler never uses an unset pointer, and leaves the invariant in
    place, whether it returns or throws. *)
Lemma run_one_invariant ev w :
  invariant w ->
  exists w', (run_one os ev w = Val tt w'
              \/ exists e, run_one os ev w = Exn e w')
             /\ invariant w'.
Proof.
  intros I. destruct ev as [id c].
  destruct (find_op id (pending w)) as [[o e]|] eqn:Hf.
  2:{ exists w. split; [left; now apply run_one_idle | assumption]. }
  pose proof I as [I1 I2 I3 I4 I5 I6 I7 I8].
  pose proof (count_ops_filter_le is_receive
                (fun e => negb (Nat.eqb (fst e) id)) (pending w)) as Lr.
  pose proof (count_ops_filter_le is_connect_or_read
                (fun e => negb (Nat.eqb (fst e) id)) (pending w)) as Lc.
  fold (without id (pending w)) in Lr, Lc.
  destruct o, c;
    try (exists w; split; [left; now apply (run_one_mismatch os w id _ _ Hf)
                          | assumption]);
    destruct (failed (decide e ec)) eqn:Hec.
  - (* connect fails *)
    rewrite (run_one_connect_error os _ _ _ _ _ Hf Hec).
    eexists; split; [left; reflexivity|].
    constructor; simpl_after; auto using well_numbered_without; lia.
  - (* connect succeeds *)
    rewrite (run_one_connect_ok os _ _ _ _ _ Hf Hec).
    eexists; split; [left; reflexivity|].
    pose proof (count_ops_remove is_connect_or_read _ _ _ Hf eq_refl).
    constructor; simpl_after; auto using well_numbered_without, well_numbered_push;
      count_ops_tac.
  - (* read fails *)
    rewrite (run_one_read_error os _ _ _ _ _ _ Hf Hec).
    apply tcp_close_invariant.
    constructor; simpl_after; auto using well_numbered_without; lia.
  - (* read makes progress *)
    destruct (firstn (packetSize - got) data) as [|c cs] eqn:Hd.
    + rewrite (run_one_read_eof os _ _ _ _ _ _ Hf Hec Hd).
      apply tcp_close_invariant.
      constructor; simpl_after; auto using well_numbered_without; lia.
    + assert (Hlen : got + List.length (c :: cs) <= packetSize).
      { rewrite <- Hd, length_firstn. destruct (packetSize - got) eqn:E;
          [discriminate|lia]. }
      assert (Hne : firstn (packetSize - got) data <> []) by (rewrite Hd; discriminate).
      destruct (Nat.eq_dec (got + List.length (c :: cs)) packetSize) as [Hfull|Hpart].
      * rewrite <- Hd in Hfull.
        rewrite (run_one_read_complete os _ _ _ _ _ _ Hf Hec Hne Hfull I1).
        eexists; split; [left; reflexivity|].
        pose proof (count_ops_remove is_connect_or_read _ _ _ Hf eq_refl).
        constructor; simpl_after;
          auto using well_numbered_without, well_numbered_push2;
          try count_ops_tac.
        rewrite splice_length; [assumption | rewrite Hd, I3; exact Hlen].
      * rewrite <- Hd in Hpart.
        rewrite (run_one_read_partial os _ _ _ _ _ _ Hf Hec Hne Hpart).
        eexists; split; [left; reflexivity|].
        constructor; simpl_after; auto using well_numbered_replaced.
        -- rewrite splice_length; [assumption | rewrite Hd, I3; exact Hlen].
        -- rewrite (count_ops_replace is_connect_or_read _ _ _ _ (proj2 I6) Hf);
             [assumption | reflexivity].
        -- rewrite (count_ops_replace is_receive _ _ _ _ (proj2 I6) Hf);
             [assumption | reflexivity].
  - (* write fails *)
    rewrite (run_one_write_error os _ _ _ _ _ Hf Hec).
    apply tcp_close_invariant.
    constructor; simpl_after; auto using well_numbered_without; lia.
  - rewrite (run_one_write_ok os _ _ _ _ _ Hf Hec).
    eexists; split; [left; reflexivity|].
    constructor; simpl_after; auto using well_numbered_without; lia.
  - (* receive fails *)
    rewrite (run_one_receive_error os _ _ _ _ sender datagram Hf Hec).
    eexists; split; [left; reflexivity|].
    constructor; simpl_after; auto using well_numbered_without; lia.
  - rewrite (run_one_receive_ok os _ _ _ _ sender datagram Hf Hec I2).
    eexists; split; [left; reflexivity|].
    pose proof (count_ops_remove is_receive _ _ _ Hf eq_refl).
    constructor; simpl_after;
      auto using well_numbered_without, well_numbered_push2;
      try count_ops_tac.
    rewrite splice_length; [assumption|].
    rewrite I4. apply firstn_packet_length.
  - (* send fails *)
    rewrite (run_one_send_error os _ _ _ _ _ _ Hf Hec).
    eexists; split; [left; reflexivity|].
    constructor; simpl_after; auto using well_numbered_without; lia.
  - rewrite (run_one_send_ok os _ _ _ _ _ _ Hf Hec).
    eexists; split; [left; reflexivity|].
    constructor; simpl_after; auto using well_numbered_without; lia.
Qed.

End Invariant.

(** ** Worlds of a session satisfy the invariant *)

Section Reachability.

Context (os : environment).

Lemma steps_invariant schedule w w' :
  steps os schedule w w' -> invariant w -> invariant w'.
Proof.
  induction 1 as [w|w ev w1 rest w2 Hstep _ IH]; [auto|].
  intros I. apply IH.
  destruct (run_one_invariant os ev w I) as (w' & [Hv|[e He]] & I');
    congruence.
Qed.

Lemma reachable_invariant self w : reachable os self w -> invariant w.
Proof.
  intros (w0 & schedule & Hw & Hs).
  eapply steps_invariant; eauto using wired_invariant.
Qed.

Lemma steps_trans s1 s2 w1 w2 w3 :
  steps os s1 w1 w2 -> steps os s2 w2 w3 -> steps os (s1 ++ s2) w1 w3.
Proof.
  induction 1; [auto|]. intros. simpl. eapply steps_next; eauto.
Qed.

Lemma steps_one ev w w' : run_one os ev w = Val tt w' -> steps os [ev] w w'.
Proof.
  intros H. eapply steps_next; [exact H | apply steps_refl].
Qed.

Lemma reachable_steps self schedule w w' :
  reachable os self w -> steps os schedule w w' -> reachable os self w'.
Proof.
  intros (w0 & s0 & Hw & Hs) H. exists w0, (s0 ++ schedule).
  split; [assumption|]. eapply steps_trans; eauto.
Qed.

Lemma io_service_run_cons ev rest w :
  io_service_run os (ev :: rest) w =
  match pending w with
  | [] => Val tt w
  | _ :: _ =>
      match run_one os ev w with
      | Val _ w' => io_service_run os rest w'
      | Exn e w' => Exn e w'
      | UB => UB
      end
  end.
Proof.
  simpl. unfold bind, get, ret. now destruct (pending w).
Qed.

(** [io_service.run()] walks through steps until the schedule ends or a
    handler throws. *)
Lemma io_service_run_steps schedule w :
  invariant w ->
  exists done w', steps os done w w' /\
    (io_service_run os schedule w = Val tt w' \/
     exists e w'', io_service_run os schedule w = Exn e w'').
Proof.
  revert w. induction schedule as [|ev rest IH]; intros w I.
  - exists [], w. split; [apply steps_refl | now left].
  - rewrite io_service_run_cons.
    destruct (pending w) eqn:Hp.
    + exists [], w. split; [apply steps_refl | now left].
    + destruct (run_one_invariant os ev w I) as (w1 & [Hv|[e He]] & I1).
      * rewrite Hv. destruct (IH w1 I1) as (done & w' & Hs & Hr).
        exists (ev :: done), w'. split; [eapply steps_next; eauto | exact Hr].
      * rewrite He. exists [], w. split; [apply steps_refl | right; eauto].
Qed.

(** With nothing outstanding no completion can be delivered. *)
Lemma steps_no_work schedule w w' :
  steps os schedule w w' -> pending w = [] -> w' = w.
Proof.
  induction 1 as [w|w ev w1 rest w2 Hstep _ IH]; [reflexivity|].
  intros Hp. rewrite run_one_idle in Hstep by (now rewrite Hp).
  apply Val_world_inj in Hstep. subst w1. auto.
Qed.

(** [io_service.run()] goes through the steps that lead to a world with an
    outstanding operation, and on from there. *)
Lemma io_service_run_app done rest w w' :
  steps os done w w' -> pending w' <> [] ->
  io_service_run os (done ++ rest) w = io_service_run os rest w'.
Proof.
  induction 1 as [w|w ev w1 tl w2 Hstep Hs IH]; [reflexivity|].
  intros Hp. simpl app. rewrite io_service_run_cons.
  destruct (pending w) eqn:Hw.
  - pose proof (steps_no_work _ _ _ (steps_next _ _ _ _ _ _ Hstep Hs) Hw).
    subst w2. congruence.
  - rewrite Hstep. auto.
Qed.

Lemma construct_defined self :
  construct os self (raw_world os) <> UB.
Proof.
  compute_construction.
  destruct (resolve os (tcpIp self) (tcpPort self)) as [e|eps]; [discriminate|].
  destruct (udp_open os); [discriminate|].
  destruct (from_string os (udpIp self)) as [e|a]; [discriminate|].
  destruct (failed (set_option_ec os));
    (destruct (udp_bind os _); [discriminate|]);
    destruct eps; discriminate.
Qed.

(** The [try] block is the construction and wiring followed by the loop. *)
Lemma try_block_wired self schedule :
  try_block os self schedule (raw_world os) =
  match (construct os self ;; setUdp addr_udpSock ;; setTcp addr_tcpSock)
          (raw_world os) with
  | Val _ w => io_service_run os schedule w
  | Exn e w => Exn e w
  | UB => UB
  end.
Proof.
  unfold try_block, bind.
  destruct (construct os self (raw_world os)); reflexivity.
Qed.

Lemma wiring_result self :
  (exists w, wired os self w) \/
  (exists e w, construct os self (raw_world os) = Exn e w /\
     (construct os self ;; setUdp addr_udpSock ;; setTcp addr_tcpSock)
       (raw_world os) = Exn e w).
Proof.
  unfold wired, bind.
  destruct (construct os self (raw_world os)) as [[] w|e w|] eqn:Hc.
  - left. eexists. reflexivity.
  - right. eauto.
  - now destruct (construct_defined self).
Qed.

(** A session observed as still running is in a reachable world. *)
Lemma startConnections_running self schedule w :
  startConnections os self schedule = running w -> reachable os self w.
Proof.
  unfold startConnections. rewrite try_block_wired.
  destruct (wiring_result self) as [[w0 Hw]|(e & w0 & _ & He)].
  - unfold wired in Hw. rewrite Hw.
    destruct (io_service_run_steps schedule w0 (wired_invariant os _ _ Hw))
      as (done & w' & Hs & [Hr|(e & w'' & Hr)]); rewrite Hr.
    + destruct (pending w') eqn:Hp; [discriminate|].
      intros H. injection H as <-. exists w0, done. split; assumption.
    + discriminate.
  - rewrite He. discriminate.
Qed.

End Reachability.

(** The sample sessions are sessions. *)
Lemma reachable_session schedule :
  startConnections quiet_os bridge schedule = running (session schedule) ->
  reachable quiet_os bridge (session schedule).
Proof.
  apply startConnections_running.
Qed.

(** ** The steps of a session, case by case *)

Section Delivery.

Context (os : environment).

Lemma read_chunk_fits got (data : list byte) :
  firstn (packetSize - got) data <> [] ->
  got + List.length (firstn (packetSize - got) data) <= packetSize.
Proof.
  intros H. rewrite length_firstn.
  destruct (packetSize - got) eqn:E; [now destruct H | lia].
Qed.

(** [run_one] follows the rules. *)
Lemma run_one_delivery w ev :
  udpServer (tcpSock w) = Some addr_udpSock ->
  tcpServer (udpSock w) = Some addr_tcpSock ->
  delivery os w ev (run_one os ev w).
Proof.
  intros I1 I2. destruct ev as [id c].
  destruct (find_op id (pending w)) as [[o e]|] eqn:Hf.
  2:{ rewrite run_one_idle by exact Hf. now constructor. }
  destruct o, c;
    try (rewrite (run_one_mismatch os w id _ _ Hf) by exact I;
         eapply deliver_mismatch; [exact Hf | exact I]);
    destruct (failed (decide e ec)) eqn:Hec.
  - rewrite (run_one_connect_error os _ _ _ _ _ Hf Hec). econstructor; eauto.
  - rewrite (run_one_connect_ok os _ _ _ _ _ Hf Hec). econstructor; eauto.
  - rewrite (run_one_read_error os _ _ _ _ _ _ Hf Hec).
    eapply deliver_read_error; eauto.
  - destruct (firstn (packetSize - got) data) as [|c cs] eqn:Hd.
    + rewrite (run_one_read_eof os _ _ _ _ _ _ Hf Hec Hd).
      eapply deliver_read_eof; eauto.
    + assert (Hne : firstn (packetSize - got) data <> [])
        by (rewrite Hd; discriminate).
      pose proof (read_chunk_fits _ _ Hne) as Hfit.
      destruct (Nat.eq_dec
                  (got + List.length (firstn (packetSize - got) data))
                  packetSize) as [Hfull|Hpart].
      * rewrite (run_one_read_complete os _ _ _ _ _ _ Hf Hec Hne Hfull I1).
        eapply deliver_read_complete; eauto.
      * rewrite (run_one_read_partial os _ _ _ _ _ _ Hf Hec Hne Hpart).
        eapply deliver_read_partial; eauto. lia.
  - rewrite (run_one_write_error os _ _ _ _ _ Hf Hec).
    eapply deliver_write_error; eauto.
  - rewrite (run_one_write_ok os _ _ _ _ _ Hf Hec). econstructor; eauto.
  - rewrite (run_one_receive_error os _ _ _ _ sender datagram Hf Hec).
    econstructor; eauto.
  - rewrite (run_one_receive_ok os _ _ _ _ sender datagram Hf Hec I2).
    econstructor; eauto.
  - rewrite (run_one_send_error os _ _ _ _ _ _ Hf Hec). econstructor; eauto.
  - rewrite (run_one_send_ok os _ _ _ _ _ _ Hf Hec). econstructor; eauto.
Qed.

End Delivery.

(** ** C1: where UDP sends go *)

(** C1 as stated fails: with the bridge configured for 127.0.0.1:9001, a
    datagram arrives from 10.0.0.7:5555 and the next packet read from TCP
    is sent to 10.0.0.7:5555. *)
Lemma udp_send_to_last_sender_counterexample :
  ~ (forall m d,
       In (issue_async_send_to m d)
          (observed (startConnections quiet_os bridge stranger_schedule)) ->
       configured_endpoint quiet_os bridge = Some d).
Proof.
  intros H. specialize (H (packet_of x07) peer).
  assert (Hin : In (issue_async_send_to (packet_of x07) peer)
                   (observed (startConnections quiet_os bridge
                                stranger_schedule))).
  { vm_compute. repeat (try (left; reflexivity); right). }
  apply H in Hin. vm_compute in Hin. discriminate Hin.
Qed.

Section Destination.

Context (os : environment).

(** C1, as the code has it: every UDP send goes to the current value of
    [remote_endpoint_].  That value is the endpoint built from the
    configured host and port when the loop is entered, and each datagram
    received without error replaces it with the datagram's sender; no
    other step changes it. *)
Theorem udp_sends_go_to_remote_endpoint (self : SocketBridge) :
  (forall w0, wired os self w0 ->
     configured_endpoint os self = Some (remote_endpoint_ (udpSock w0))) /\
  (forall w ev w',
     reachable os self w -> run_one os ev w = Val tt w' ->
     remote_endpoint_ (udpSock w') =
       match received_from w ev with
       | Some sender => sender
       | None => remote_endpoint_ (udpSock w)
       end /\
     exists acts,
       out w' = out w ++ acts /\
       Forall (fun d => d = remote_endpoint_ (udpSock w))
              (send_destinations acts)).
Proof.
  split.
  - intros w0 H.
    destruct (wired_world os _ _ H) as (a & eps & Ha & _ & _ & Hu & _).
    unfold configured_endpoint. now rewrite Ha, Hu.
  - intros w ev w' R Hrun.
    pose proof (reachable_invariant os _ _ R) as [I1 I2 _ _ _ _ _ _].
    pose proof (run_one_delivery os w ev I1 I2) as D. rewrite Hrun in D.
    unfold received_from.
    inversion D; subst; simpl_world;
      try match goal with
          | H : tcp_close os ?W = Val tt w' |- _ =>
              rewrite (tcp_close_fields os W _ w' H (or_introl eq_refl))
          end;
      try match goal with
          | H : find_op _ _ = _ |- _ => rewrite H
          end;
      simpl_after;
      try match goal with
          | H : failed _ = _ |- _ => rewrite H
          end;
      try (split; [reflexivity|];
           eexists; split; [reflexivity|]; simpl; repeat constructor).
    + split; [reflexivity|]. exists [].
      rewrite app_nil_r. split; [reflexivity | constructor].
    + assert (E : match
                    match c with
                    | receive_from_done ec sender _ =>
                        match op s with
                        | op_receive_from =>
                            if failed (decide (early s) ec)
                            then None else Some sender
                        | _ => None
                        end
                    | _ => None
                    end
                  with
                  | Some sender => sender
                  | None => remote_endpoint_ (udpSock w')
                  end = remote_endpoint_ (udpSock w')).
      { destruct c; try reflexivity.
        destruct (op s); try reflexivity. contradiction. }
      rewrite E. split; [reflexivity|]. exists [].
      rewrite app_nil_r. split; [reflexivity | constructor].
Qed.

End Destination.

Lemma udp_sends_go_to_remote_endpoint_witness :
  let w := session [(1, connect_done no_error);
                    (0, receive_from_done no_error peer (packet_of x01))] in
  let ev := (2, read_some_done no_error (packet_of x07)) in
  let w' := session stranger_schedule in
  wired quiet_os bridge (session []) /\
  reachable quiet_os bridge w /\
  run_one quiet_os ev w = Val tt w' /\
  configured_endpoint quiet_os bridge
    = Some (remote_endpoint_ (udpSock (session []))) /\
  remote_endpoint_ (udpSock w') = peer /\
  exists acts,
    out w' = out w ++ acts /\
    Forall (fun d => d = peer) (send_destinations acts).
Proof.
  intros w ev w'.
  assert (Hw : wired quiet_os bridge (session [])) by (vm_compute; reflexivity).
  assert (R : reachable quiet_os bridge w)
    by (apply reachable_session; vm_compute; reflexivity).
  assert (Hr : run_one quiet_os ev w = Val tt w') by (vm_compute; reflexivity).
  split; [exact Hw|]. split; [exact R|]. split; [exact Hr|].
  split; [exact (proj1 (udp_sends_go_to_remote_endpoint quiet_os bridge) _ Hw)|].
  exact (proj2 (udp_sends_go_to_remote_endpoint quiet_os bridge) _ _ _ R Hr).
Defined.

(** ** C2: a whole packet is forwarded once, unchanged *)

Lemma splice_whole (p a : array) :
  List.length p = packetSize -> List.length a = packetSize ->
  splice 0 (firstn packetSize p) a = p.
Proof.
  intros Hp Ha. unfold splice.
  rewrite (firstn_all2 p) by lia.
  change (firstn 0 a) with (@nil byte).
  rewrite skipn_all2 by (simpl; lia). apply app_nil_r.
Qed.

Lemma splice_last got (data a : array) :
  got + List.length data = packetSize -> List.length a = packetSize ->
  splice got (firstn (packetSize - got) data) a = firstn got a ++ data.
Proof.
  intros Hd Ha. unfold splice.
  rewrite (firstn_all2 data) by lia.
  rewrite skipn_all2 by lia. now rewrite app_nil_r.
Qed.

Section Forwarding.

Context (os : environment).


End Forwarding.


(** ** C3: short frames *)

Lemma find_op_replaced id s s' p :
  find_op id p = Some s -> find_op id (replaced id s' p) = Some s'.
Proof.
  unfold replaced. induction p as [|a p IH]; [discriminate|].
  rewrite find_op_cons. simpl map. rewrite find_op_cons.
  destruct (Nat.eqb (fst a) id) eqn:E.
  - intros _. simpl. now rewrite Nat.eqb_refl.
  - intros H. rewrite E. auto.
Qed.

Section ShortReads.

Context (os : environment).

(** The TCP side never sees a short read as a success.  Delivering a chunk
    to the outstanding read either leaves the read outstanding with fewer
    than [packetSize] bytes gathered and produces nothing, or completes it
    with all [packetSize] bytes, or ends it with an error, which is logged,
    closes the socket and starts nothing. *)
Lemma short_read_is_an_error (self : SocketBridge) (w : world) :
  reachable os self w ->
  forall id e ec got data,
    find_op id (pending w) = Some {| op := op_read got; early := e |} ->
    let n := List.length (firstn (packetSize - got) data) in
    (exists w',
       run_one os (id, read_some_done ec data) w = Val tt w' /\
       got + n < packetSize /\ out w' = out w /\
       find_op id (pending w')
         = Some {| op := op_read (got + n); early := None |}) \/
    (exists w',
       run_one os (id, read_some_done ec data) w = Val tt w' /\
       got + n = packetSize /\
       out w' = out w ++
         [issue_async_send_to (tcp_recv_buffer_ (tcpSock w'))
                              (remote_endpoint_ (udpSock w));
          issue_async_read]) \/
    (exists w' ec',
       (run_one os (id, read_some_done ec data) w = Val tt w' \/
        exists x, run_one os (id, read_some_done ec data) w = Exn x w') /\
       failed ec' = true /\
       out w' = out w ++
         [cerr ("SocketBridge: TCP failed read: " ++ show_ec ec')] /\
       tcp_socket_ (tcpSock w') = closed /\
       pending w' = without id (pending w)).
Proof.
  intros R. pose proof (reachable_invariant os _ _ R) as [I1 I2 I3 I4 _ _ _ _].
  intros id e ec got data Hf n. subst n.
  destruct (failed (decide e ec)) eqn:Hec.
  { right; right.
    rewrite (run_one_read_error os _ _ _ _ _ data Hf Hec).
    eexists (closed_world _), (decide e ec).
    split; [apply tcp_close_result|]. repeat split; assumption. }
  destruct (firstn (packetSize - got) data) as [|c cs] eqn:Hd.
  { right; right.
    rewrite (run_one_read_eof os _ _ _ _ _ data Hf Hec Hd).
    eexists (closed_world _), err_eof.
    split; [apply tcp_close_result|]. repeat split. }
  assert (Hne : firstn (packetSize - got) data <> [])
    by (rewrite Hd; discriminate).
  pose proof (read_chunk_fits _ _ Hne) as Hfit.
  rewrite <- Hd.
  destruct (Nat.eq_dec (got + List.length (firstn (packetSize - got) data))
                       packetSize) as [Hfull|Hpart].
  + right; left.
    rewrite (run_one_read_complete os _ _ _ _ _ _ Hf Hec Hne Hfull I1).
    eexists. split; [reflexivity|]. split; [exact Hfull | reflexivity].
  + left.
    rewrite (run_one_read_partial os _ _ _ _ _ _ Hf Hec Hne Hpart).
    eexists. split; [reflexivity|]. split; [lia|]. simpl_after.
    split; [apply app_nil_r|]. eapply find_op_replaced; eauto.
Qed.

End ShortReads.

(** C3, evaluated where the code departs from it.  The connection is
    established and a datagram of three bytes is received without error.
    The receive handler does not treat it as an error: nothing is logged,
    and the whole receive buffer is forwarded as one write of [packetSize]
    bytes, the three bytes of the datagram followed by the 53 bytes the
    buffer held before; then the receive is re-armed.  The data forwarded is
    not the data received, against the header comment of the source
    ("retransmits that packet ... No manipulation of the data is performed").
    On the TCP side the same three bytes, followed by the end of the stream,
    are an error: it is logged, the socket is closed, nothing is
    forwarded. *)
Theorem short_datagram_is_forwarded :
  let d := [x01; x02; x03] in
  let w := session [(1, connect_done no_error)] in
  List.length d < packetSize /\
  observed (startConnections quiet_os bridge short_schedule)
    = out w ++
      [issue_async_write (d ++ skipn 3 (udp_recv_buffer_ (udpSock w)));
       issue_async_receive_from] /\
  List.length (d ++ skipn 3 (udp_recv_buffer_ (udpSock w))) = packetSize /\
  observed (startConnections quiet_os bridge short_read_schedule)
    = out w ++ [cerr ("SocketBridge: TCP failed read: " ++ show_ec err_eof)] /\
  tcp_socket_ (tcpSock (session short_read_schedule)) = closed.
Proof.
  cbv zeta. split; [unfold packetSize; simpl List.length; lia|].
  split; [vm_compute; reflexivity|].
  split; [vm_compute; reflexivity|].
  split; vm_compute; reflexivity.
Qed.

(** ** C4: one read at a time, forward before re-arm *)

Lemma count_ops_le (k k' : async_op -> bool) p :
  (forall o, k o = true -> k' o = true) -> count_ops k p <= count_ops k' p.
Proof.
  intros H. induction p as [|a p IH]; [apply le_n|].
  rewrite !count_ops_cons.
  destruct (k (op (snd a))) eqn:E; [rewrite (H _ E); lia|].
  destruct (k' (op (snd a))); lia.
Qed.

Section Sequential.

Context (os : environment).

(** C4: in every world of a session at most one read and at most one
    receive are outstanding.  A read or receive that completes without
    error first starts the forward of the receive buffer and then starts
    the next read or receive; and a step starts a receive only in this
    way, a read only in this way or when the connection is established. *)
Theorem reads_strictly_sequential (self : SocketBridge) (w : world) :
  reachable os self w ->
  count_ops is_read (pending w) <= 1 /\
  count_ops is_receive (pending w) <= 1 /\
  (forall id e ec sender d,
     find_op id (pending w) = Some {| op := op_receive_from; early := e |} ->
     failed (decide e ec) = false ->
     exists w',
       run_one os (id, receive_from_done ec sender d) w = Val tt w' /\
       out w' = out w ++
         [issue_async_write (udp_recv_buffer_ (udpSock w'));
          issue_async_receive_from]) /\
  (forall id e ec got data,
     find_op id (pending w) = Some {| op := op_read got; early := e |} ->
     failed (decide e ec) = false ->
     got + List.length (firstn (packetSize - got) data) = packetSize ->
     firstn (packetSize - got) data <> [] ->
     exists w',
       run_one os (id, read_some_done ec data) w = Val tt w' /\
       out w' = out w ++
         [issue_async_send_to (tcp_recv_buffer_ (tcpSock w'))
                              (remote_endpoint_ (udpSock w'));
          issue_async_read]) /\
  (forall ev w',
     run_one os ev w = Val tt w' ->
     exists acts,
       out w' = out w ++ acts /\
       (In issue_async_receive_from acts ->
        exists P, acts = [issue_async_write P; issue_async_receive_from]) /\
       (In issue_async_read acts ->
        (exists P d, acts = [issue_async_send_to P d; issue_async_read]) \/
        acts = [cout "SocketBridge: TCP client connected"; issue_async_read])).
Proof.
  intros R.
  pose proof (reachable_invariant os _ _ R) as [I1 I2 I3 I4 _ _ I7 I8].
  split; [|split; [exact I8|split; [|split]]].
  - etransitivity; [|exact I7]. apply count_ops_le. now intros [].
  - intros id e ec sender d Hf Hec.
    rewrite (run_one_receive_ok os _ _ _ _ sender d Hf Hec I2).
    eexists. split; reflexivity.
  - intros id e ec got data Hf Hec Hfull Hne.
    rewrite (run_one_read_complete os _ _ _ _ _ _ Hf Hec Hne Hfull I1).
    eexists. split; reflexivity.
  - intros ev w' Hrun.
    pose proof (run_one_delivery os w ev I1 I2) as D. rewrite Hrun in D.
    inversion D; subst;
      try match goal with
          | H : tcp_close os ?W = Val tt w' |- _ =>
              rewrite (tcp_close_fields os W _ w' H (or_introl eq_refl))
          end;
      simpl_after;
      try (exists []; rewrite app_nil_r; split; [reflexivity|];
           split; intros []);
      (eexists; split; [reflexivity|]; split; intros Hin; in_cases Hin; eauto).
Qed.

End Sequential.

Lemma reads_strictly_sequential_witness :
  let w := session [(1, connect_done no_error)] in
  reachable quiet_os bridge w /\
  count_ops is_read (pending w) <= 1 /\
  count_ops is_receive (pending w) <= 1 /\
  (exists w',
     run_one quiet_os (0, receive_from_done no_error peer (packet_of x01)) w
       = Val tt w' /\
     out w' = out w ++
       [issue_async_write (udp_recv_buffer_ (udpSock w'));
        issue_async_receive_from]) /\
  (exists w',
     run_one quiet_os (2, read_some_done no_error (packet_of x07)) w
       = Val tt w' /\
     out w' = out w ++
       [issue_async_send_to (tcp_recv_buffer_ (tcpSock w'))
                            (remote_endpoint_ (udpSock w'));
        issue_async_read]).
Proof.
  intros w.
  assert (R : reachable quiet_os bridge w)
    by (apply reachable_session; vm_compute; reflexivity).
  destruct (reads_strictly_sequential quiet_os bridge w R)
    as (C1 & C2 & U & T & _).
  split; [exact R|]. split; [exact C1|]. split; [exact C2|]. split.
  - apply (U 0 None no_error peer (packet_of x01));
      [vm_compute; reflexivity | reflexivity].
  - apply (T 2 None no_error 0 (packet_of x07));
      [vm_compute; reflexivity | reflexivity | reflexivity
       | vm_compute; discriminate].
Defined.

(** ** C5: sending on a TCP socket without a connection *)

(** C5 as stated fails where the connect was refused and the system reports
    an error for [close]: the datagram handed to [handle_write] starts a
    write that fails, and the handler of that write does not return
    normally; [socket_.close()] throws. *)
Lemma close_failure_throws_counterexample :
  let w := session_in failing_close_os
             [(1, connect_done err_connection_refused)] in
  let w1 := session_in failing_close_os refused_schedule in
  ~ (tcp_socket_ (tcpSock w) = not_connected ->
     find_op 2 (pending w1)
       = Some {| op := op_write (packet_of x01);
                 early := Some err_broken_pipe |} ->
     exists w2,
       run_one failing_close_os (2, write_done no_error) w1 = Val tt w2).
Proof.
  intros w w1 H.
  destruct H as [w2 H2];
    [vm_compute; reflexivity | vm_compute; reflexivity |].
  vm_compute in H2. discriminate H2.
Qed.

Section Unconnected.

Context (os : environment).

(** C5, as the code has it.  On a socket whose connect failed, or that is
    closed, [handle_write] returns normally; it changes neither socket and
    starts one write that is bound to fail.  When that write completes,
    whatever the network answers, the handler logs the failure; nothing is
    written, the UDP side is untouched and the socket is closed from then
    on.  On a socket that is already closed the handler returns normally
    and changes nothing else.  On a socket that is still open the handler
    returns normally unless the system reports an error for the close; then
    [close] throws, [io_service.run()] is left at this handler whatever
    completions were still to come, and [startConnections] catches the
    exception, prints it and returns. *)
Theorem send_on_unconnected_tcp (w : world) (m : array) :
  tcp_socket_ (tcpSock w) = not_connected \/ tcp_socket_ (tcpSock w) = closed ->
  exists ec0,
    tcp_early (tcp_socket_ (tcpSock w)) = Some ec0 /\
    failed ec0 = true /\
    TCP_Client_handle_write m w =
      Val tt (world_after w (tcpSock w) (udpSock w)
                (pending w
                 ++ [(next_id w, {| op := op_write m; early := Some ec0 |})])
                (S (next_id w)) [issue_async_write m]) /\
    forall w1 id ec,
      find_op id (pending w1) = Some {| op := op_write m; early := Some ec0 |} ->
      let logged :=
        world_after w1 (tcpSock w1) (udpSock w1) (without id (pending w1))
          (next_id w1)
          [cerr ("SocketBridge: TCP writing failed: " ++ show_ec ec0)] in
      (tcp_socket_ (tcpSock w1) = closed ->
       run_one os (id, write_done ec) w1 = Val tt logged) /\
      (close_throws os (tcp_socket_ (tcpSock w1)) = false ->
       run_one os (id, write_done ec) w1 = Val tt (closed_world logged)) /\
      (close_throws os (tcp_socket_ (tcpSock w1)) = true ->
       run_one os (id, write_done ec) w1
         = Exn (close_exception os) (closed_world logged) /\
       forall self w0 done rest,
         wired os self w0 -> steps os done w0 w1 ->
         startConnections os self (done ++ (id, write_done ec) :: rest)
           = returned
               (out w1 ++
                [cerr ("SocketBridge: TCP writing failed: " ++ show_ec ec0);
                 cerr (what (close_exception os))])).
Proof.
  intros Hs.
  assert (He : exists ec0, tcp_early (tcp_socket_ (tcpSock w)) = Some ec0
                           /\ failed ec0 = true).
  { destruct Hs as [-> | ->]; eexists; split; reflexivity. }
  destruct He as (ec0 & He & Hec). exists ec0.
  split; [exact He|]. split; [exact Hec|]. split.
  - unfold TCP_Client_handle_write, async_write, start_op, emit, bind, get.
    simpl_after. now rewrite He.
  - intros w1 id ec Hf logged.
    pose proof (run_one_write_error os _ _ _ ec _ Hf Hec) as Hrun.
    cbn [decide] in Hrun. fold logged in Hrun.
    rewrite tcp_close_exact in Hrun.
    assert (Hl : tcp_socket_ (tcpSock logged) = tcp_socket_ (tcpSock w1))
      by reflexivity.
    rewrite Hl in Hrun.
    split; [|split].
    + intros Hc. rewrite Hrun, Hc. cbn [close_throws].
      rewrite closed_world_closed; [reflexivity|]. now rewrite Hl.
    + intros Hc. now rewrite Hrun, Hc.
    + intros Hc. rewrite Hc in Hrun. split; [exact Hrun|].
      intros self w0 done rest Hw Hsteps.
      unfold startConnections. rewrite try_block_wired.
      unfold wired in Hw. rewrite Hw.
      rewrite (io_service_run_app os done _ _ _ Hsteps)
        by (intros Hp; rewrite Hp in Hf; discriminate).
      rewrite io_service_run_cons.
      destruct (pending w1) eqn:Hp;
        [first [discriminate Hf | rewrite Hp in Hf; discriminate Hf]|].
      rewrite Hrun. subst logged. simpl_after.
      now rewrite <- app_assoc.
Qed.

End Unconnected.

Lemma send_on_unconnected_tcp_witness :
  let w := session_in failing_close_os
             [(1, connect_done err_connection_refused)] in
  let w1 := session_in failing_close_os refused_schedule in
  tcp_socket_ (tcpSock w) = not_connected /\
  TCP_Client_handle_write (packet_of x01) w =
    Val tt (world_after w (tcpSock w) (udpSock w)
              (pending w
               ++ [(next_id w,
                    {| op := op_write (packet_of x01);
                       early := Some err_broken_pipe |})])
              (S (next_id w)) [issue_async_write (packet_of x01)]) /\
  find_op 2 (pending w1)
    = Some {| op := op_write (packet_of x01);
              early := Some err_broken_pipe |} /\
  close_throws failing_close_os (tcp_socket_ (tcpSock w1)) = true /\
  wired failing_close_os bridge (session_in failing_close_os []) /\
  steps failing_close_os refused_schedule (session_in failing_close_os []) w1 /\
  startConnections failing_close_os bridge
    (refused_schedule
     ++ (2, write_done no_error)
        :: [(3, receive_from_done no_error peer (packet_of x02))])
    = returned
        (out w1 ++
         [cerr ("SocketBridge: TCP writing failed: "
                ++ show_ec err_broken_pipe);
          cerr (what (close_exception failing_close_os))]).
Proof.
  intros w w1.
  assert (Hs : tcp_socket_ (tcpSock w) = not_connected)
    by (vm_compute; reflexivity).
  assert (Hf : find_op 2 (pending w1)
               = Some {| op := op_write (packet_of x01);
                         early := Some err_broken_pipe |})
    by (vm_compute; reflexivity).
  assert (Hc : close_throws failing_close_os (tcp_socket_ (tcpSock w1)) = true)
    by (vm_compute; reflexivity).
  assert (Hw : wired failing_close_os bridge (session_in failing_close_os []))
    by (vm_compute; reflexivity).
  assert (Hst : steps failing_close_os refused_schedule
                  (session_in failing_close_os []) w1).
  { unfold refused_schedule.
    eapply steps_next; [vm_compute; reflexivity|].
    eapply steps_next; [vm_compute; reflexivity|].
    assert (E : w1 = session_in failing_close_os refused_schedule)
      by reflexivity.
    rewrite E. vm_compute. apply steps_refl. }
  split; [exact Hs|].
  destruct (send_on_unconnected_tcp failing_close_os w (packet_of x01)
              (or_introl Hs))
    as (ec0 & He & Hec & Hcall & Hdone).
  rewrite Hs in He. injection He as <-.
  split; [exact Hcall|]. split; [exact Hf|]. split; [exact Hc|].
  split; [exact Hw|]. split; [exact Hst|].
  destruct (Hdone w1 2 no_error Hf) as (_ & _ & Hthrow).
  destruct (Hthrow Hc) as [_ Hcaught].
  exact (Hcaught bridge _ refused_schedule
           [(3, receive_from_done no_error peer (packet_of x02))] Hw Hst).
Defined.

(** ** C6: a failed write closes the TCP socket, a failed send closes nothing *)

Lemma find_op_without_other id j p :
  j <> id -> find_op j (without id p) = find_op j p.
Proof.
  intros Hne. unfold without. induction p as [|a p IH]; [reflexivity|].
  simpl filter. destruct (Nat.eqb (fst a) id) eqn:E; simpl negb; cbv iota.
  - rewrite find_op_cons. apply Nat.eqb_eq in E.
    destruct (Nat.eqb (fst a) j) eqn:E'; [|exact IH].
    apply Nat.eqb_eq in E'. congruence.
  - rewrite !find_op_cons. now rewrite IH.
Qed.

Section SendFailures.

Context (os : environment).

(** C6: when a TCP write fails the handler logs it and the socket is closed
    (also when [close] itself throws); the UDP side is untouched.  When a
    UDP send fails the handler only logs it: both sockets stay as they
    were, the UDP socket open, and every other outstanding operation, the
    receive among them, stays outstanding. *)
Theorem write_failure_closes_send_failure_does_not
    (self : SocketBridge) (w : world) (id : op_id)
    (e : option error_code) (ec : error_code) :
  reachable os self w ->
  failed (decide e ec) = true ->
  (forall m,
     find_op id (pending w) = Some {| op := op_write m; early := e |} ->
     exists w',
       (run_one os (id, write_done ec) w = Val tt w' \/
        exists x, run_one os (id, write_done ec) w = Exn x w') /\
       tcp_socket_ (tcpSock w') = closed /\
       udpSock w' = udpSock w /\
       out w' = out w ++
         [cerr ("SocketBridge: TCP writing failed: " ++ show_ec (decide e ec))]) /\
  (forall m dst,
     find_op id (pending w) = Some {| op := op_send_to m dst; early := e |} ->
     exists w',
       run_one os (id, send_to_done ec) w = Val tt w' /\
       tcpSock w' = tcpSock w /\
       udpSock w' = udpSock w /\
       udp_socket_ (udpSock w') = true /\
       out w' = out w ++
         [cerr ("SocketBridge: UDP sending failed: " ++ show_ec (decide e ec))] /\
       forall j, j <> id -> find_op j (pending w') = find_op j (pending w)).
Proof.
  intros R Hec.
  pose proof (reachable_invariant os _ _ R) as [_ _ _ _ I5 _ _ _].
  split.
  - intros m Hf. rewrite (run_one_write_error os _ _ _ _ _ Hf Hec).
    eexists (closed_world _). split; [apply tcp_close_result|].
    repeat split.
  - intros m dst Hf. rewrite (run_one_send_error os _ _ _ _ _ _ Hf Hec).
    eexists. split; [reflexivity|]. simpl_after.
    repeat split; try assumption.
    intros j Hj. now apply find_op_without_other.
Qed.

End SendFailures.

Lemma write_failure_closes_send_failure_does_not_witness :
  let w := session both_ways_schedule in
  reachable quiet_os bridge w /\
  find_op 3 (pending w)
    = Some {| op := op_write (packet_of x01); early := None |} /\
  find_op 5 (pending w)
    = Some {| op := op_send_to (packet_of x07) peer; early := None |} /\
  (exists w',
     (run_one quiet_os (3, write_done err_connection_reset) w = Val tt w' \/
      exists x, run_one quiet_os (3, write_done err_connection_reset) w
                = Exn x w') /\
     tcp_socket_ (tcpSock w') = closed /\
     udpSock w' = udpSock w /\
     out w' = out w ++
       [cerr ("SocketBridge: TCP writing failed: "
              ++ show_ec err_connection_reset)]) /\
  (exists w',
     run_one quiet_os (5, send_to_done err_connection_refused) w = Val tt w' /\
     tcpSock w' = tcpSock w /\
     udpSock w' = udpSock w /\
     udp_socket_ (udpSock w') = true /\
     out w' = out w ++
       [cerr ("SocketBridge: UDP sending failed: "
              ++ show_ec err_connection_refused)] /\
     forall j, j <> 5 -> find_op j (pending w') = find_op j (pending w)).
Proof.
  intros w.
  assert (R : reachable quiet_os bridge w)
    by (apply reachable_session; vm_compute; reflexivity).
  assert (H3 : find_op 3 (pending w)
               = Some {| op := op_write (packet_of x01); early := None |})
    by (vm_compute; reflexivity).
  assert (H5 : find_op 5 (pending w)
               = Some {| op := op_send_to (packet_of x07) peer; early := None |})
    by (vm_compute; reflexivity).
  split; [exact R|]. split; [exact H3|]. split; [exact H5|]. split.
  - exact (proj1 (write_failure_closes_send_failure_does_not
                    quiet_os bridge w 3 None err_connection_reset R eq_refl)
                 (packet_of x01) H3).
  - exact (proj2 (write_failure_closes_send_failure_does_not
                    quiet_os bridge w 5 None err_connection_refused R eq_refl)
                 (packet_of x07) peer H5).
Defined.

(** ** C7: a failed construction ends [startConnections] normally *)

Section Construction.

Context (os : environment).

(** C7: if the construction of the sockets throws, whatever the schedule,
    [startConnections] returns; its output is what was printed before,
    only console lines, followed by the exception's message on [cerr]; no
    operation was started and no handler ran. *)
Theorem construction_failure_is_caught
    (self : SocketBridge) (schedule : list event) (e : exception) (w : world) :
  construct os self (raw_world os) = Exn e w ->
  startConnections os self schedule = returned (out w ++ [cerr (what e)]) /\
  forallb is_console (out w) = true /\
  pending w = [].
Proof.
  intros H. split.
  - unfold startConnections, try_block, bind. now rewrite H.
  - revert H.
    compute_construction.
    destruct (resolve os (tcpIp self) (tcpPort self)) as [x|eps].
    { intros H; injection H as <- <-. split; reflexivity. }
    destruct (udp_open os).
    { intros H; injection H as <- <-. split; reflexivity. }
    destruct (from_string os (udpIp self)) as [x|a].
    { intros H; injection H as <- <-. split; reflexivity. }
    destruct (failed (set_option_ec os));
      (destruct (udp_bind os _);
       [ intros H; injection H as <- <-; split; reflexivity
       | destruct eps; discriminate ]).
Qed.

End Construction.

Lemma construction_failure_is_caught_witness :
  (construct no_dns_os bridge (raw_world no_dns_os)
   = Exn {| what := "resolve: Host not found" |}
         (world_after (raw_world no_dns_os)
            (tcpSock (raw_world no_dns_os)) (udpSock (raw_world no_dns_os))
            [] 0
            [cout "Starting SocketBridge, connecting TCP 127.0.0.1:9000 to UDP 127.0.0.1:9001"])) /\
  startConnections no_dns_os bridge stranger_schedule
  = returned
      [cout "Starting SocketBridge, connecting TCP 127.0.0.1:9000 to UDP 127.0.0.1:9001";
       cerr "resolve: Host not found"].
Proof.
  assert (H : construct no_dns_os bridge (raw_world no_dns_os)
   = Exn {| what := "resolve: Host not found" |}
         (world_after (raw_world no_dns_os)
            (tcpSock (raw_world no_dns_os)) (udpSock (raw_world no_dns_os))
            [] 0
            [cout "Starting SocketBridge, connecting TCP 127.0.0.1:9000 to UDP 127.0.0.1:9001"]))
    by (vm_compute; reflexivity).
  split; [exact H|].
  exact (proj1 (construction_failure_is_caught no_dns_os bridge
                  stranger_schedule _ _ H)).
Defined.

(** A taken port: the exception leaves the constructor after its first line
    was printed. *)
Example bind_failure_run :
  startConnections busy_port_os bridge stranger_schedule
  = returned
      [cout "Starting SocketBridge, connecting TCP 127.0.0.1:9000 to UDP 127.0.0.1:9001";
       cout "SocketBridge: UDP Server connected";
       cerr "bind: Address already in use"].
Proof. vm_compute. reflexivity. Qed.

(** ** C9: the back-references are set before any handler runs *)

Section BackReferences.

Context (os : environment).

(** C9: [startConnections] never uses an unset back-reference, whatever the
    environment and the schedule; in every world in which a handler can
    run both back-references are set. *)
Theorem back_references_set_before_use
    (self : SocketBridge) (schedule : list event) :
  is_crashed (startConnections os self schedule) = false /\
  forall w, reachable os self w ->
    udpServer (tcpSock w) = Some addr_udpSock /\
    tcpServer (udpSock w) = Some addr_tcpSock /\
    forall ev, exists w',
      run_one os ev w = Val tt w' \/ exists x, run_one os ev w = Exn x w'.
Proof.
  split.
  - unfold startConnections. rewrite try_block_wired.
    destruct (wiring_result os self) as [[w0 Hw]|(e & w0 & _ & He)].
    + unfold wired in Hw. rewrite Hw.
      destruct (io_service_run_steps os schedule w0 (wired_invariant os _ _ Hw))
        as (done & w' & _ & [Hr|(e & w'' & Hr)]); rewrite Hr;
        [destruct (pending w')|]; reflexivity.
    + now rewrite He.
  - intros w R. pose proof (reachable_invariant os _ _ R) as I.
    split; [apply I|]. split; [apply I|].
    intros ev. destruct (run_one_invariant os ev w I) as (w' & H & _).
    now exists w'.
Qed.

End BackReferences.

Lemma back_references_set_before_use_witness :
  let w := session both_ways_schedule in
  reachable quiet_os bridge w /\
  udpServer (tcpSock w) = Some addr_udpSock /\
  tcpServer (udpSock w) = Some addr_tcpSock /\
  forall ev, exists w',
    run_one quiet_os ev w = Val tt w' \/ exists x, run_one quiet_os ev w = Exn x w'.
Proof.
  intros w.
  assert (R : reachable quiet_os bridge w)
    by (apply reachable_session; vm_compute; reflexivity).
  split; [exact R|].
  exact (proj2 (back_references_set_before_use quiet_os bridge []) w R).
Defined.

(** Were the loop entered without the two [set] calls, the first packet
    would go through an unset pointer. *)
Example unwired_loop_crashes :
  (construct quiet_os bridge ;;
   io_service_run quiet_os
     [(0, receive_from_done no_error peer (packet_of x01))])
    (raw_world quiet_os) = UB.
Proof. vm_compute. reflexivity. Qed.

(** ** C8: the lifetime of the forwarded packet *)

(** No theorem is stated for C8.  [handle_write] and [handle_send] take
    [message] by value and hand [buffer(message, packetSize)] to the
    library: the operation refers to the parameter, and the parameter is
    destroyed when the member function returns, while the operation may be
    performed later.  Which bytes are then transmitted depends on when the
    library reads the buffer and on what has taken the parameter's place in
    memory.  In this embedding an outstanding [op_write] or [op_send_to]
    carries its bytes as a value (see [async_op]), so a statement about them
    would only repeat that choice. *)

Lemma find_op_fresh n p s q :
  Forall (fun e : op_id * started => fst e < n) p ->
  find_op n (p ++ (n, s) :: q) = Some s.
Proof.
  induction p as [|a p IH]; intros H.
  - simpl app. rewrite find_op_cons. simpl. now rewrite Nat.eqb_refl.
  - inversion H; subst. simpl app. rewrite find_op_cons.
    destruct (Nat.eqb (fst a) n) eqn:E; [apply Nat.eqb_eq in E; lia|].
    auto.
Qed.

(** ** C10: after a failed receive the UDP socket still sends *)

Lemma count_ops_zero_find k id p s :
  count_ops k p = 0 -> find_op id p = Some s -> k (op s) = false.
Proof.
  intros H0 Hf. destruct (k (op s)) eqn:E; [|reflexivity].
  pose proof (count_ops_remove k id p s Hf E). lia.
Qed.

Section ReceiveFailure.

Context (os : environment).

(** Once no receive is outstanding, no step starts one, and no step touches
    the UDP endpoint. *)
Lemma stopped_step ev w w' :
  invariant w ->
  count_ops is_receive (pending w) = 0 ->
  run_one os ev w = Val tt w' ->
  udpSock w' = udpSock w /\ count_ops is_receive (pending w') = 0.
Proof.
  intros I H0 Hrun. pose proof I as [I1 I2 _ _ _ [_ I6] _ _].
  pose proof (run_one_delivery os w ev I1 I2) as D. rewrite Hrun in D.
  assert (Hw : forall id, count_ops is_receive (without id (pending w)) = 0).
  { intros id.
    pose proof (count_ops_filter_le is_receive
                  (fun e => negb (Nat.eqb (fst e) id)) (pending w)) as L.
    fold (without id (pending w)) in L. lia. }
  inversion D; subst;
    try match goal with
        | H : tcp_close os ?W = Val tt w' |- _ =>
            rewrite (tcp_close_fields os W _ w' H (or_introl eq_refl))
        end;
    try match goal with
        | H : find_op _ _ = Some {| op := op_receive_from; early := _ |} |- _ =>
            pose proof (count_ops_zero_find is_receive _ _ _ H0 H); discriminate
        end;
    simpl_after; (split; [reflexivity|]); try assumption;
    rewrite ?count_ops_app, ?count_ops_cons, ?count_ops_nil, ?Hw;
    try reflexivity.
  match goal with
  | H : find_op _ _ = Some _ |- _ =>
      rewrite (count_ops_replace is_receive _ _ _ _ I6 H); [assumption|reflexivity]
  end.
Qed.

Lemma stopped_steps schedule w w' :
  steps os schedule w w' ->
  invariant w ->
  count_ops is_receive (pending w) = 0 ->
  udpSock w' = udpSock w /\ count_ops is_receive (pending w') = 0.
Proof.
  induction 1 as [w|w ev w1 rest w2 Hstep _ IH]; [auto|].
  intros I H0.
  destruct (stopped_step _ _ _ I H0 Hstep) as [Hu Hc].
  destruct IH as [Hu' Hc']; [|assumption|].
  - eapply steps_invariant; [eapply steps_one; eauto | assumption].
  - split; [congruence | assumption].
Qed.

(** C10: a receive that fails is logged and leaves the UDP endpoint as it
    was: the socket is open and no receive is outstanding any more.  In
    every world reached afterwards this is still so, [remote_endpoint_]
    still has the value it had at the failure, and a TCP read that
    completes starts one send of the packet to that endpoint, on the open
    socket, and the next read. *)
Theorem udp_send_survives_receive_failure
    (self : SocketBridge) (w : world) (id : op_id)
    (e : option error_code) (ec : error_code) (sender : endpoint)
    (d : list byte) :
  reachable os self w ->
  find_op id (pending w) = Some {| op := op_receive_from; early := e |} ->
  failed (decide e ec) = true ->
  exists w1,
    run_one os (id, receive_from_done ec sender d) w = Val tt w1 /\
    out w1 = out w ++
      [cerr ("SocketBridge: UDP reading failed: " ++ show_ec (decide e ec))] /\
    udpSock w1 = udpSock w /\
    forall schedule w2,
      steps os schedule w1 w2 ->
      udp_socket_ (udpSock w2) = true /\
      remote_endpoint_ (udpSock w2) = remote_endpoint_ (udpSock w) /\
      count_ops is_receive (pending w2) = 0 /\
      forall id' e' ec' got data,
        find_op id' (pending w2) = Some {| op := op_read got; early := e' |} ->
        failed (decide e' ec') = false ->
        firstn (packetSize - got) data <> [] ->
        got + List.length (firstn (packetSize - got) data) = packetSize ->
        exists w3,
          run_one os (id', read_some_done ec' data) w2 = Val tt w3 /\
          out w3 = out w2 ++
            [issue_async_send_to (tcp_recv_buffer_ (tcpSock w3))
                                 (remote_endpoint_ (udpSock w));
             issue_async_read] /\
          find_op (next_id w2) (pending w3)
            = Some {| op := op_send_to (tcp_recv_buffer_ (tcpSock w3))
                                       (remote_endpoint_ (udpSock w));
                      early := None |}.
Proof.
  intros R Hf Hec. pose proof (reachable_invariant os _ _ R) as I.
  pose proof (run_one_receive_error os _ _ _ _ sender d Hf Hec) as Hrun.
  eexists. split; [exact Hrun|]. split; [reflexivity|]. split; [reflexivity|].
  intros schedule w2 Hsteps.
  assert (I1 : invariant
                 (world_after w (tcpSock w) (udpSock w) (without id (pending w))
                    (next_id w)
                    [cerr ("SocketBridge: UDP reading failed: "
                           ++ show_ec (decide e ec))]))
    by (eapply steps_invariant; [eapply steps_one; exact Hrun | exact I]).
  assert (H0 : count_ops is_receive (without id (pending w)) = 0).
  { pose proof (count_ops_remove is_receive _ _ _ Hf eq_refl).
    pose proof (inv_one_receive _ I). lia. }
  destruct (stopped_steps _ _ _ Hsteps I1 H0) as [Hu Hc].
  unfold world_after in Hu; cbn [udpSock] in Hu.
  pose proof (steps_invariant os _ _ _ Hsteps I1) as I2.
  pose proof I2 as [J1 J2 _ _ J5 [J6 _] _ _].
  rewrite Hu. split; [rewrite <- Hu; exact J5|]. split; [reflexivity|].
  split; [exact Hc|].
  intros id' e' ec' got data Hf' Hec' Hne Hfull.
  pose proof (run_one_read_complete os _ _ _ _ _ _ Hf' Hec' Hne Hfull J1) as Hr.
  cbv zeta in Hr. rewrite Hu in Hr.
  eexists. split; [exact Hr|]. split; [reflexivity|].
  simpl_after. rewrite (inv_udp_open _ I). cbn [udp_early].
  apply find_op_fresh. now apply Forall_fresh_filter.
Qed.

End ReceiveFailure.

Lemma udp_send_survives_receive_failure_witness :
  let w := session [(1, connect_done no_error);
                    (0, receive_from_done no_error peer (packet_of x01))] in
  let w1 := session failed_receive_schedule in
  let w2 := session (failed_receive_schedule ++ [(3, write_done no_error)]) in
  reachable quiet_os bridge w /\
  find_op 4 (pending w) = Some {| op := op_receive_from; early := None |} /\
  run_one quiet_os (4, receive_from_done err_connection_refused peer []) w
    = Val tt w1 /\
  steps quiet_os [(3, write_done no_error)] w1 w2 /\
  remote_endpoint_ (udpSock w) = peer /\
  udp_socket_ (udpSock w2) = true /\
  remote_endpoint_ (udpSock w2) = remote_endpoint_ (udpSock w) /\
  count_ops is_receive (pending w2) = 0 /\
  exists w3,
    run_one quiet_os (2, read_some_done no_error (packet_of x07)) w2
      = Val tt w3 /\
    out w3 = out w2 ++
      [issue_async_send_to (tcp_recv_buffer_ (tcpSock w3))
                           (remote_endpoint_ (udpSock w));
       issue_async_read] /\
    find_op (next_id w2) (pending w3)
      = Some {| op := op_send_to (tcp_recv_buffer_ (tcpSock w3))
                                 (remote_endpoint_ (udpSock w));
                early := None |}.
Proof.
  intros w w1 w2.
  assert (R : reachable quiet_os bridge w)
    by (apply reachable_session; vm_compute; reflexivity).
  assert (Hf : find_op 4 (pending w)
               = Some {| op := op_receive_from; early := None |})
    by (vm_compute; reflexivity).
  assert (Hc : run_one quiet_os
                 (4, receive_from_done err_connection_refused peer []) w
               = Val tt w1)
    by (vm_compute; reflexivity).
  assert (Hs : steps quiet_os [(3, write_done no_error)] w1 w2)
    by (apply steps_one; vm_compute; reflexivity).
  split; [exact R|]. split; [exact Hf|]. split; [exact Hc|].
  split; [exact Hs|]. split; [vm_compute; reflexivity|].
  destruct (udp_send_survives_receive_failure quiet_os bridge w 4 None
              err_connection_refused peer [] R Hf eq_refl)
    as (w1' & Hrun & _ & _ & Hlater).
  rewrite Hc in Hrun. apply Val_world_inj in Hrun. subst w1'.
  destruct (Hlater _ _ Hs) as (Hopen & Hre & Hcnt & Hread).
  split; [exact Hopen|]. split; [exact Hre|]. split; [exact Hcnt|].
  apply (Hread 2 None no_error 0 (packet_of x07));
    [ vm_compute; reflexivity | reflexivity
    | vm_compute; discriminate | reflexivity ].
Defined.

(** ** Construction *)

Section ConstructionOutcome.

Context (os : environment).

Lemma construct_start_line self :
  construct os self =
  (emit (cout (start_line self)) ;;
   match resolve os (tcpIp self) (tcpPort self) with
   | inl e => throw e
   | inr endpoint_iterator =>
       UDP_Server_new os (udpIp self) (udpPort self) ;;
       TCP_Client_new endpoint_iterator
   end).
Proof. reflexivity. Qed.

(** X1: a construction in which resolve, open, address parsing and bind
    succeed always succeeds, also when [set_option] fails: that failure is
    only logged.  The loop is entered after the start line and the
    constructor's lines, with the receive started first and the connect
    second, and nothing else outstanding. *)
Theorem construction_succeeds (self : SocketBridge)
    (eps : list endpoint) (a : string) :
  resolve os (tcpIp self) (tcpPort self) = inr eps ->
  udp_open os = None ->
  from_string os (udpIp self) = inr a ->
  udp_bind os (udp_endpoint a (udpPort self)) = None ->
  exists w,
    wired os self w /\
    out w = cout (start_line self) :: udp_banner os
            ++ [issue_async_receive_from; issue_async_connect] /\
    map fst (pending w) = [0; 1] /\
    remote_endpoint_ (udpSock w) = udp_endpoint a (udpPort self) /\
    udp_socket_ (udpSock w) = true.
Proof.
  intros Hr Ho Hf Hb. unfold wired, udp_banner, udp_endpoint in *.
  compute_construction. rewrite Hr, Ho, Hf.
  destruct (failed (set_option_ec os)); rewrite Hb;
    destruct eps; eexists; (split; [reflexivity|]); repeat split.
Qed.

(** X2: the construction throws only when resolve, the opening of the UDP
    socket, the parsing of the UDP address or the bind fails, the first of
    them in this order giving the exception.  Nothing but the start line
    has been printed then, except that a failed bind comes after the
    constructor's own lines. *)
Theorem construction_failure_order (self : SocketBridge)
    (e : exception) (w : world) :
  construct os self (raw_world os) = Exn e w ->
  (resolve os (tcpIp self) (tcpPort self) = inl e /\
   out w = [cout (start_line self)]) \/
  (exists eps,
     resolve os (tcpIp self) (tcpPort self) = inr eps /\
     ((udp_open os = Some e /\ out w = [cout (start_line self)]) \/
      (udp_open os = None /\ from_string os (udpIp self) = inl e /\
       out w = [cout (start_line self)]) \/
      (exists a,
         udp_open os = None /\ from_string os (udpIp self) = inr a /\
         udp_bind os (udp_endpoint a (udpPort self)) = Some e /\
         out w = cout (start_line self) :: udp_banner os))).
Proof.
  unfold udp_banner, udp_endpoint. compute_construction.
  destruct (resolve os (tcpIp self) (tcpPort self)) as [x|eps].
  { intros H; injection H as <- <-. left. split; reflexivity. }
  destruct (udp_open os) as [x|].
  { intros H; injection H as <- <-. right. exists eps.
    split; [reflexivity|]. left. split; reflexivity. }
  destruct (from_string os (udpIp self)) as [x|a].
  { intros H; injection H as <- <-. right. exists eps.
    split; [reflexivity|]. right. left. repeat split. }
  destruct (failed (set_option_ec os));
    (destruct (udp_bind os _) as [x|] eqn:Hb;
     [ intros H; injection H as <- <-; right; exists eps;
       split; [reflexivity|]; right; right; exists a;
       repeat split; try reflexivity; exact Hb
     | destruct eps; discriminate ]).
Qed.

(** The loop is entered only after such a construction. *)
Lemma wired_construction (self : SocketBridge) (w : world) :
  wired os self w ->
  exists eps a,
    resolve os (tcpIp self) (tcpPort self) = inr eps /\
    udp_open os = None /\
    from_string os (udpIp self) = inr a /\
    udp_bind os (udp_endpoint a (udpPort self)) = None /\
    out w = cout (start_line self) :: udp_banner os
            ++ [issue_async_receive_from; issue_async_connect].
Proof.
  intros H.
  destruct (resolve os (tcpIp self) (tcpPort self)) as [x|eps] eqn:Hr.
  { revert H. unfold wired. compute_construction. rewrite Hr. discriminate. }
  destruct (udp_open os) as [x|] eqn:Ho.
  { revert H. unfold wired. compute_construction. rewrite Hr, Ho.
    discriminate. }
  destruct (from_string os (udpIp self)) as [x|a] eqn:Hf.
  { revert H. unfold wired. compute_construction. rewrite Hr, Ho, Hf.
    discriminate. }
  destruct (udp_bind os (udp_endpoint a (udpPort self))) as [x|] eqn:Hb.
  { revert H. unfold wired, udp_endpoint in *. compute_construction.
    rewrite Hr, Ho, Hf.
    destruct (failed (set_option_ec os)); rewrite Hb; discriminate. }
  exists eps, a. repeat split; try assumption.
  revert H. unfold wired, udp_banner, udp_endpoint in *.
  compute_construction. rewrite Hr, Ho, Hf.
  destruct (failed (set_option_ec os)); rewrite Hb;
    destruct eps; intros H; injection H as <-; reflexivity.
Qed.

(** What has been printed when the construction throws. *)
Lemma construct_failure_out (self : SocketBridge) (e : exception) (w : world) :
  construct os self (raw_world os) = Exn e w ->
  (out w = [cout (start_line self)] \/
   out w = cout (start_line self) :: udp_banner os) /\
  pending w = [].
Proof.
  unfold udp_banner. compute_construction.
  destruct (resolve os (tcpIp self) (tcpPort self)) as [x|eps].
  { intros H; injection H as <- <-. split; [left|]; reflexivity. }
  destruct (udp_open os) as [x|].
  { intros H; injection H as <- <-. split; [left|]; reflexivity. }
  destruct (from_string os (udpIp self)) as [x|a].
  { intros H; injection H as <- <-. split; [left|]; reflexivity. }
  destruct (failed (set_option_ec os));
    (destruct (udp_bind os _) as [x|];
     [ intros H; injection H as <- <-; split; [right|]; reflexivity
     | destruct eps; discriminate ]).
Qed.

(** X3: the UDP port, taken as [uint], becomes a 16-bit port: the socket is
    bound to the configured port modulo 65536, which is the configured
    port exactly when that is below 65536, while the start line shows the
    configured number. *)
Theorem udp_port_is_16_bit (self : SocketBridge) (w : world) :
  wired os self w ->
  (port (remote_endpoint_ (udpSock w)) < 65536)%N /\
  port (remote_endpoint_ (udpSock w)) = (udpPort self mod 65536)%N /\
  ((udpPort self < 65536)%N ->
   port (remote_endpoint_ (udpSock w)) = udpPort self) /\
  udp_bind os (remote_endpoint_ (udpSock w)) = None /\
  exists rest, out w = cout (start_line self) :: rest.
Proof.
  intros H.
  destruct (wired_construction _ _ H) as (eps & a & Hr & Ho & Hf & Hb & Hout).
  destruct (wired_world os _ _ H) as (a' & eps' & Ha' & _ & _ & Hu & _).
  assert (a' = a) by congruence. subst a'.
  rewrite Hu. cbn [remote_endpoint_ port].
  split; [apply N.mod_lt; discriminate|].
  split; [reflexivity|].
  split; [intros Hlt; now apply N.mod_small|].
  split; [exact Hb|]. eexists. exact Hout.
Qed.

End ConstructionOutcome.

Lemma construction_succeeds_witness :
  exists w,
    wired no_reuse_os bridge w /\
    out w = cout (start_line bridge) :: udp_banner no_reuse_os
            ++ [issue_async_receive_from; issue_async_connect] /\
    map fst (pending w) = [0; 1] /\
    remote_endpoint_ (udpSock w) = udp_endpoint "127.0.0.1" 9001 /\
    udp_socket_ (udpSock w) = true.
Proof.
  apply (construction_succeeds no_reuse_os bridge
           [ {| address := "127.0.0.1"; port := 9000 |} ] "127.0.0.1");
    reflexivity.
Defined.

Lemma construction_failure_order_witness :
  exists w,
    construct busy_port_os bridge (raw_world busy_port_os)
    = Exn {| what := "bind: Address already in use" |} w /\
    out w = cout (start_line bridge) :: udp_banner busy_port_os.
Proof.
  eexists. split; [vm_compute; reflexivity|].
  destruct (construction_failure_order busy_port_os bridge _ _
              ltac:(vm_compute; reflexivity))
    as [[Hr _]|(eps & _ & [[Ho _]|[(_ & Hf & _)|(a & _ & _ & _ & Hout)]])].
  - discriminate Hr.
  - discriminate Ho.
  - discriminate Hf.
  - exact Hout.
Defined.

Lemma udp_port_is_16_bit_witness :
  exists w,
    wired quiet_os wide_port_bridge w /\
    port (remote_endpoint_ (udpSock w)) = 4464%N /\
    exists rest,
      out w = cout "Starting SocketBridge, connecting TCP 127.0.0.1:9000 to UDP 127.0.0.1:70000"
              :: rest.
Proof.
  assert (Hw : exists w, wired quiet_os wide_port_bridge w).
  { eexists. vm_compute. reflexivity. }
  destruct Hw as [w Hw]. exists w. split; [exact Hw|].
  destruct (udp_port_is_16_bit quiet_os wide_port_bridge w Hw)
    as (_ & Hp & _ & _ & Hout).
  split; [exact Hp | exact Hout].
Defined.

(** ** The configuration *)

Lemma to_uint_not_nil (n : N) : N.to_uint n <> Decimal.Nil.
Proof.
  intros H. pose proof (DecimalN.Unsigned.of_to n) as E. rewrite H in E.
  subst n. discriminate H.
Qed.

Lemma show_N_inj (n n' : N) : show_N n = show_N n' -> n = n'.
Proof.
  unfold show_N. intros H.
  apply (f_equal NilZero.uint_of_string) in H.
  rewrite !NilZero.usu in H by apply to_uint_not_nil.
  injection H as H. now apply DecimalN.Unsigned.to_uint_inj.
Qed.

(** X4: the constructor keeps the whole configuration: two bridges are equal
    only if they were built from the same hosts and ports.  In particular
    the TCP port, kept as its decimal text, is kept without loss. *)
Theorem SocketBridge_new_injective
    (tcpIp1 tcpIp2 udpIp1 udpIp2 : string) (tcpPort1 tcpPort2 udpPort1 udpPort2 : N) :
  SocketBridge_new tcpIp1 tcpPort1 udpIp1 udpPort1
  = SocketBridge_new tcpIp2 tcpPort2 udpIp2 udpPort2 ->
  tcpIp1 = tcpIp2 /\ tcpPort1 = tcpPort2 /\
  udpIp1 = udpIp2 /\ udpPort1 = udpPort2.
Proof.
  unfold SocketBridge_new. intros H. injection H as H1 H2 H3 H4.
  repeat split; try assumption. now apply show_N_inj.
Qed.

Lemma SocketBridge_new_injective_witness :
  SocketBridge_new "127.0.0.1" 9000 "127.0.0.1" 9001 = bridge /\
  "127.0.0.1" = "127.0.0.1" /\ 9000%N = 9000%N /\
  "127.0.0.1" = "127.0.0.1" /\ 9001%N = 9001%N.
Proof.
  split; [reflexivity|].
  exact (SocketBridge_new_injective _ _ _ _ _ _ _ _ (eq_refl bridge)).
Defined.

(** ** The TCP socket's states *)

Lemma tcp_after_refl s : tcp_after s s = true.
Proof. now destruct s. Qed.

Lemma tcp_after_trans s1 s2 s3 :
  tcp_after s1 s2 = true -> tcp_after s2 s3 = true -> tcp_after s1 s3 = true.
Proof. destruct s1, s2, s3; simpl; congruence. Qed.

Lemma tcp_after_closed s : tcp_after s closed = true.
Proof. now destruct s. Qed.

Lemma tcp_after_connect s ec : tcp_after s (connect_result s ec) = true.
Proof. destruct s; simpl; try reflexivity. Qed.

Lemma count_ops_without_le k id p :
  count_ops k (without id p) <= count_ops k p.
Proof. apply count_ops_filter_le. Qed.

Lemma count_connect_le p :
  count_ops is_connect p <= count_ops is_connect_or_read p.
Proof. apply count_ops_le. now intros []. Qed.

Section SocketStates.

Context (os : environment).

(** One step moves the socket along [tcp_after]. *)
Lemma step_tcp_after ev w w' :
  invariant w -> run_one os ev w = Val tt w' ->
  tcp_after (tcp_socket_ (tcpSock w)) (tcp_socket_ (tcpSock w')) = true.
Proof.
  intros [I1 I2 _ _ _ _ _ _] Hrun.
  pose proof (run_one_delivery os w ev I1 I2) as D. rewrite Hrun in D.
  inversion D; subst;
    try match goal with
        | H : tcp_close os ?W = Val tt w' |- _ =>
            rewrite (tcp_close_fields os W _ w' H (or_introl eq_refl))
        end;
    simpl_after;
    auto using tcp_after_refl, tcp_after_closed, tcp_after_connect.
Qed.

Lemma steps_tcp_after schedule w w' :
  steps os schedule w w' -> invariant w ->
  tcp_after (tcp_socket_ (tcpSock w)) (tcp_socket_ (tcpSock w')) = true.
Proof.
  induction 1 as [w|w ev w1 rest w2 Hstep _ IH]; intros I.
  - apply tcp_after_refl.
  - eapply tcp_after_trans; [eapply step_tcp_after; eauto|].
    apply IH. eapply steps_invariant; [eapply steps_one; eauto | assumption].
Qed.

(** X5: there is no way back for the TCP socket.  Once closed it stays
    closed; once its connect has failed it is never connected; once
    connected it stays connected until it is closed. *)
Theorem tcp_socket_never_reopens
    (self : SocketBridge) (schedule : list event) (w w' : world) :
  reachable os self w -> steps os schedule w w' ->
  (tcp_socket_ (tcpSock w) = closed -> tcp_socket_ (tcpSock w') = closed) /\
  (tcp_socket_ (tcpSock w) = not_connected ->
   tcp_socket_ (tcpSock w') = not_connected \/
   tcp_socket_ (tcpSock w') = closed) /\
  (tcp_socket_ (tcpSock w) = connected ->
   tcp_socket_ (tcpSock w') = connected \/
   tcp_socket_ (tcpSock w') = closed).
Proof.
  intros R Hs.
  pose proof (steps_tcp_after _ _ _ Hs (reachable_invariant os _ _ R)) as H.
  repeat split; intros E; rewrite E in H;
    destruct (tcp_socket_ (tcpSock w')); simpl in H;
    try discriminate; auto.
Qed.

(** While a connect is outstanding the socket is not connected. *)
Lemma step_connected_no_connect ev w w' :
  invariant w ->
  (tcp_socket_ (tcpSock w) = connected ->
   count_ops is_connect (pending w) = 0) ->
  run_one os ev w = Val tt w' ->
  tcp_socket_ (tcpSock w') = connected ->
  count_ops is_connect (pending w') = 0.
Proof.
  intros I K Hrun. pose proof I as [I1 I2 _ _ _ [_ I6] I7 _].
  pose proof (run_one_delivery os w ev I1 I2) as D. rewrite Hrun in D.
  pose proof (count_connect_le (pending w)) as L.
  inversion D; subst;
    try match goal with
        | H : tcp_close os ?W = Val tt w' |- _ =>
            rewrite (tcp_close_fields os W _ w' H (or_introl eq_refl))
        end;
    simpl_after; try discriminate; try exact K;
    try match goal with
        | H : find_op ?id _ = Some {| op := op_connect _; early := _ |} |- _ =>
            pose proof (count_ops_remove is_connect_or_read _ _ _ H eq_refl);
            pose proof (count_connect_le (without id (pending w)));
            intros _; rewrite ?count_ops_app, ?count_ops_cons, ?count_ops_nil;
            cbn [is_connect op snd]; lia
        end;
    try (intros E; specialize (K E);
         match goal with
         | |- context [without ?id _] =>
             pose proof (count_ops_without_le is_connect id (pending w))
         end;
         rewrite ?count_ops_app, ?count_ops_cons, ?count_ops_nil;
         cbn [is_connect op snd]; lia).
  intros E; specialize (K E).
  match goal with
  | H : find_op _ _ = Some _ |- _ =>
      rewrite (count_ops_replace is_connect _ _ _ _ I6 H); [assumption|reflexivity]
  end.
Qed.

Lemma reachable_connected_no_connect self w :
  reachable os self w ->
  tcp_socket_ (tcpSock w) = connected ->
  count_ops is_connect (pending w) = 0.
Proof.
  intros (w0 & schedule & Hw & Hs).
  pose proof (wired_invariant os _ _ Hw) as I0.
  assert (K0 : tcp_socket_ (tcpSock w0) = connected ->
               count_ops is_connect (pending w0) = 0).
  { destruct (wired_world os _ _ Hw) as (a & eps & _ & _ & Ht & _).
    rewrite Ht. destruct eps; discriminate. }
  clear Hw. induction Hs as [w|w ev w1 rest w2 Hstep _ IH]; [exact K0|].
  apply IH.
  - eapply steps_invariant; [eapply steps_one; eauto | assumption].
  - eapply step_connected_no_connect; eauto.
Qed.

End SocketStates.

Lemma tcp_socket_never_reopens_witness :
  let w := session [(1, connect_done err_connection_refused)] in
  let w' := session [(1, connect_done err_connection_refused);
                     (0, receive_from_done no_error peer (packet_of x01));
                     (2, write_done no_error)] in
  reachable quiet_os bridge w /\
  steps quiet_os [(0, receive_from_done no_error peer (packet_of x01));
                  (2, write_done no_error)] w w' /\
  tcp_socket_ (tcpSock w) = not_connected /\
  (tcp_socket_ (tcpSock w') = not_connected \/
   tcp_socket_ (tcpSock w') = closed).
Proof.
  intros w w'.
  assert (R : reachable quiet_os bridge w)
    by (apply reachable_session; vm_compute; reflexivity).
  assert (Hs : steps quiet_os
                 [(0, receive_from_done no_error peer (packet_of x01));
                  (2, write_done no_error)] w w').
  { eapply steps_next; [vm_compute; reflexivity|].
    eapply steps_next; [vm_compute; reflexivity|]. apply steps_refl. }
  assert (E : tcp_socket_ (tcpSock w) = not_connected)
    by (vm_compute; reflexivity).
  split; [exact R|]. split; [exact Hs|]. split; [exact E|].
  exact (proj1 (proj2 (tcp_socket_never_reopens quiet_os bridge _ w w' R Hs)) E).
Defined.

(** ** A failed connect *)

Section ConnectFailure.

Context (os : environment).

(** With neither a connect nor a read outstanding, no step starts a read or
    a send. *)
Lemma inbound_stopped_step ev w w' :
  invariant w ->
  count_ops is_connect_or_read (pending w) = 0 ->
  run_one os ev w = Val tt w' ->
  count_ops is_connect_or_read (pending w') = 0 /\
  exists acts,
    out w' = out w ++ acts /\
    forallb (fun a => negb (starts_inbound a)) acts = true.
Proof.
  intros I H0 Hrun. pose proof I as [I1 I2 _ _ _ _ _ _].
  pose proof (run_one_delivery os w ev I1 I2) as D. rewrite Hrun in D.
  assert (Hw : forall id,
             count_ops is_connect_or_read (without id (pending w)) = 0).
  { intros id.
    pose proof (count_ops_without_le is_connect_or_read id (pending w)). lia. }
  inversion D; subst;
    try match goal with
        | H : find_op _ _ = Some {| op := op_connect _; early := _ |} |- _ =>
            pose proof (count_ops_zero_find is_connect_or_read _ _ _ H0 H);
            discriminate
        | H : find_op _ _ = Some {| op := op_read _; early := _ |} |- _ =>
            pose proof (count_ops_zero_find is_connect_or_read _ _ _ H0 H);
            discriminate
        end;
    try match goal with
        | H : tcp_close os ?W = Val tt w' |- _ =>
            rewrite (tcp_close_fields os W _ w' H (or_introl eq_refl))
        end;
    simpl_after;
    try (split; [assumption|]; exists []; rewrite app_nil_r;
         split; reflexivity);
    (split;
     [ rewrite ?count_ops_app, ?count_ops_cons, ?count_ops_nil, ?Hw; reflexivity
     | eexists; split; reflexivity ]).
Qed.

Lemma inbound_stopped_steps schedule w w' :
  steps os schedule w w' ->
  invariant w ->
  count_ops is_connect_or_read (pending w) = 0 ->
  count_ops is_connect_or_read (pending w') = 0 /\
  exists acts,
    out w' = out w ++ acts /\
    forallb (fun a => negb (starts_inbound a)) acts = true.
Proof.
  induction 1 as [w|w ev w1 rest w2 Hstep _ IH]; intros I H0.
  - split; [assumption|]. exists []. rewrite app_nil_r. split; reflexivity.
  - destruct (inbound_stopped_step _ _ _ I H0 Hstep) as (H1 & a1 & Ho1 & Ha1).
    destruct IH as (H2 & a2 & Ho2 & Ha2); [|assumption|].
    + eapply steps_invariant; [eapply steps_one; eauto | assumption].
    + split; [assumption|]. exists (a1 ++ a2). split.
      * now rewrite Ho2, Ho1, app_assoc.
      * rewrite forallb_app, Ha1, Ha2. reflexivity.
Qed.

(** X6: a failed connect is final.  The handler logs it and starts nothing.
    From then on the socket is never connected, no connect and no read is
    ever outstanding, and no step starts a read or a UDP send: nothing
    travels from TCP to UDP.  A datagram received afterwards is still
    forwarded, as a write that is bound to fail. *)
Theorem connect_failure_is_final
    (self : SocketBridge) (w : world) (id : op_id)
    (eps : list endpoint) (e : option error_code) (ec : error_code) :
  reachable os self w ->
  find_op id (pending w) = Some {| op := op_connect eps; early := e |} ->
  failed (decide e ec) = true ->
  exists w1,
    run_one os (id, connect_done ec) w = Val tt w1 /\
    out w1 = out w ++
      [cerr ("SocketBridge: tcp failed to connect: " ++ show_ec (decide e ec))] /\
    forall schedule w2,
      steps os schedule w1 w2 ->
      (tcp_socket_ (tcpSock w2) = not_connected \/
       tcp_socket_ (tcpSock w2) = closed) /\
      count_ops is_connect_or_read (pending w2) = 0 /\
      (exists acts,
         out w2 = out w1 ++ acts /\
         forallb (fun a => negb (starts_inbound a)) acts = true) /\
      forall id' e' ec' sender d,
        find_op id' (pending w2)
          = Some {| op := op_receive_from; early := e' |} ->
        failed (decide e' ec') = false ->
        exists w3 ec0,
          run_one os (id', receive_from_done ec' sender d) w2 = Val tt w3 /\
          failed ec0 = true /\
          find_op (next_id w2) (pending w3)
            = Some {| op := op_write (udp_recv_buffer_ (udpSock w3));
                      early := Some ec0 |}.
Proof.
  intros R Hf Hec. pose proof (reachable_invariant os _ _ R) as I.
  pose proof (run_one_connect_error os _ _ _ _ _ Hf Hec) as Hrun.
  cbv zeta in Hrun. eexists. split; [exact Hrun|]. split; [reflexivity|].
  intros schedule w2 Hs.
  assert (I1 : invariant
                 (world_after w
                    (with_socket
                       (connect_result (tcp_socket_ (tcpSock w)) (decide e ec))
                       (tcpSock w))
                    (udpSock w) (without id (pending w)) (next_id w)
                    [cerr ("SocketBridge: tcp failed to connect: "
                           ++ show_ec (decide e ec))]))
    by (eapply steps_invariant; [eapply steps_one; exact Hrun | exact I]).
  assert (H0 : count_ops is_connect_or_read (without id (pending w)) = 0).
  { pose proof (count_ops_remove is_connect_or_read _ _ _ Hf eq_refl).
    pose proof (inv_one_read _ I). lia. }
  assert (Hst : tcp_after not_connected
                  (connect_result (tcp_socket_ (tcpSock w)) (decide e ec))
                = true).
  { destruct (tcp_socket_ (tcpSock w)) eqn:E; simpl; rewrite ?Hec;
      try reflexivity.
    pose proof (reachable_connected_no_connect os _ _ R E) as Hc.
    pose proof (count_ops_zero_find is_connect _ _ _ Hc Hf). discriminate. }
  pose proof (steps_tcp_after os _ _ _ Hs I1) as Hafter.
  unfold world_after in Hafter;
    cbn [tcpSock tcp_socket_ with_socket] in Hafter.
  pose proof (tcp_after_trans _ _ _ Hst Hafter) as Hnc.
  assert (Hstate : tcp_socket_ (tcpSock w2) = not_connected \/
                   tcp_socket_ (tcpSock w2) = closed).
  { destruct (tcp_socket_ (tcpSock w2)); simpl in Hnc;
      try discriminate; auto. }
  destruct (inbound_stopped_steps _ _ _ Hs I1 H0) as (Hcnt & Hacts).
  split; [exact Hstate|]. split; [exact Hcnt|]. split; [exact Hacts|].
  intros id' e' ec' sender d Hf' Hec'.
  pose proof (steps_invariant os _ _ _ Hs I1) as I2.
  pose proof I2 as [_ J2 _ _ _ [J6 _] _ _].
  pose proof (run_one_receive_ok os _ _ _ _ sender d Hf' Hec' J2) as Hr.
  cbv zeta in Hr.
  assert (He : exists ec0, tcp_early (tcp_socket_ (tcpSock w2)) = Some ec0
                           /\ failed ec0 = true).
  { destruct Hstate as [-> | ->]; eexists; split; reflexivity. }
  destruct He as (ec0 & He & Hfail).
  eexists. exists ec0. split; [exact Hr|]. split; [exact Hfail|].
  simpl_after. rewrite He.
  apply find_op_fresh. now apply Forall_fresh_filter.
Qed.

End ConnectFailure.

Lemma connect_failure_is_final_witness :
  let w := session [] in
  let w1 := session [(1, connect_done err_connection_refused)] in
  let w2 := session [(1, connect_done err_connection_refused);
                     (0, receive_from_done no_error peer (packet_of x01))] in
  reachable quiet_os bridge w /\
  find_op 1 (pending w)
    = Some {| op := op_connect [ {| address := "127.0.0.1"; port := 9000 |} ];
              early := None |} /\
  run_one quiet_os (1, connect_done err_connection_refused) w = Val tt w1 /\
  steps quiet_os [(0, receive_from_done no_error peer (packet_of x01))] w1 w2 /\
  (tcp_socket_ (tcpSock w2) = not_connected \/
   tcp_socket_ (tcpSock w2) = closed) /\
  count_ops is_connect_or_read (pending w2) = 0 /\
  (exists acts,
     out w2 = out w1 ++ acts /\
     forallb (fun a => negb (starts_inbound a)) acts = true).
Proof.
  intros w w1 w2.
  assert (R : reachable quiet_os bridge w)
    by (apply reachable_session; vm_compute; reflexivity).
  assert (Hf : find_op 1 (pending w)
    = Some {| op := op_connect [ {| address := "127.0.0.1"; port := 9000 |} ];
              early := None |})
    by (vm_compute; reflexivity).
  assert (Hc : run_one quiet_os (1, connect_done err_connection_refused) w
               = Val tt w1)
    by (vm_compute; reflexivity).
  assert (Hs : steps quiet_os
                 [(0, receive_from_done no_error peer (packet_of x01))] w1 w2)
    by (apply steps_one; vm_compute; reflexivity).
  split; [exact R|]. split; [exact Hf|]. split; [exact Hc|].
  split; [exact Hs|].
  destruct (connect_failure_is_final quiet_os bridge w 1 _ None
              err_connection_refused R Hf eq_refl)
    as (w1' & Hrun & _ & Hlater).
  rewrite Hc in Hrun. apply Val_world_inj in Hrun. subst w1'.
  destruct (Hlater _ _ Hs) as (Hst & Hcnt & Hacts & _).
  split; [exact Hst|]. split; [exact Hcnt | exact Hacts].
Defined.

(** ** Framing *)

Lemma Forall_without (P : op_id * started -> Prop) id p :
  Forall P p -> Forall P (without id p).
Proof.
  unfold without. rewrite !Forall_forall. intros H x Hx.
  apply filter_In in Hx. apply H. tauto.
Qed.

Lemma Forall_replaced (P : op_id * started -> Prop) id s p :
  Forall P p -> P (id, s) -> Forall P (replaced id s p).
Proof.
  unfold replaced. rewrite !Forall_forall. intros H Hs x Hx.
  apply in_map_iff in Hx. destruct Hx as [y [Hy Hin]].
  destruct (Nat.eqb (fst y) id); subst x; auto.
Qed.

Lemma find_op_Forall (P : op_id * started -> Prop) id p s :
  Forall P p -> find_op id p = Some s -> P (id, s).
Proof.
  intros H Hf. apply find_op_In in Hf. rewrite Forall_forall in H. auto.
Qed.

Section Framing.

Context (os : environment).

Lemma closed_world_framed w : framed w -> framed (closed_world w).
Proof. intros [H1 H2]. split; assumption. Qed.

Lemma tcp_close_framed w :
  framed w ->
  match tcp_close os w with
  | Val _ w' | Exn _ w' => framed w'
  | UB => False
  end.
Proof.
  intros F. destruct (tcp_close_result os w) as [E|[x E]]; rewrite E;
    now apply closed_world_framed.
Qed.

Lemma world_after_framed w t u p n acts :
  framed w -> Forall framed_action acts ->
  Forall (fun e => framed_op (op (snd e))) p ->
  framed (world_after w t u p n acts).
Proof.
  intros [H1 H2] Ha Hp. split; simpl; [|assumption].
  apply Forall_app. split; assumption.
Qed.

(** A step keeps the framing, whether its handler returns or throws. *)
Lemma step_framed ev w :
  invariant w -> framed w ->
  match run_one os ev w with
  | Val _ w' | Exn _ w' => framed w'
  | UB => False
  end.
Proof.
  intros I F. pose proof I as [I1 I2 I3 I4 _ _ _ _].
  pose proof F as [F1 F2].
  pose proof (run_one_delivery os w ev I1 I2) as D.
  remember (run_one os ev w) as r eqn:Hr. clear Hr.
  assert (Hw : forall id,
             Forall (fun e => framed_op (op (snd e))) (without id (pending w)))
    by (intros; now apply Forall_without).
  destruct D;
    try assumption;
    try (apply tcp_close_framed);
    try (apply world_after_framed; try assumption;
         repeat constructor; try apply Hw;
         try (apply Forall_app; split; [apply Hw|]);
         repeat constructor; cbn [framed_action framed_op op snd]).
  - (* a chunk of a read *)
    apply Forall_replaced; [assumption | exact Logic.I].
  - rewrite splice_length; [assumption|].
    rewrite I3. now apply read_chunk_fits.
  - rewrite splice_length; [assumption|].
    rewrite I3. now apply read_chunk_fits.
  - exact (find_op_Forall _ _ _ _ F2 H).
  - rewrite splice_length; [assumption|].
    rewrite I4. apply firstn_packet_length.
  - rewrite splice_length; [assumption|].
    rewrite I4. apply firstn_packet_length.
  - exact (find_op_Forall _ _ _ _ F2 H).
Qed.

Lemma io_service_run_framed schedule w :
  invariant w -> framed w ->
  match io_service_run os schedule w with
  | Val _ w' | Exn _ w' => framed w'
  | UB => False
  end.
Proof.
  revert w. induction schedule as [|ev rest IH]; intros w I F.
  - exact F.
  - rewrite io_service_run_cons. destruct (pending w); [exact F|].
    pose proof (step_framed ev w I F) as S.
    destruct (run_one_invariant os ev w I) as (w1 & [Hv|[x Hx]] & I1).
    + rewrite Hv in *. now apply IH.
    + rewrite Hx in *. exact S.
Qed.

(** X7: whatever arrives and whatever fails, every write and every send the
    bridge starts, and every one that completes, carries exactly
    [packetSize] bytes. *)
Theorem every_packet_out_is_packetSize
    (self : SocketBridge) (schedule : list event) :
  Forall framed_action (observed (startConnections os self schedule)).
Proof.
  unfold startConnections. rewrite try_block_wired.
  destruct (wiring_result os self) as [[w0 Hw]|(e & w0 & Hc & He)].
  - assert (F0 : framed w0).
    { destruct (wired_construction os _ _ Hw) as (eps & a & _ & _ & _ & _ & Ho).
      destruct (wired_world os _ _ Hw) as (_ & eps' & _ & _ & _ & _ & Hp & _).
      split; [rewrite Ho | rewrite Hp].
      - unfold udp_banner. destruct (failed (set_option_ec os));
          repeat constructor.
      - repeat constructor. }
    unfold wired in Hw. rewrite Hw.
    pose proof (io_service_run_framed schedule w0
                  (wired_invariant os _ _ Hw) F0) as F.
    destruct (io_service_run os schedule w0) as [[] w|x w|];
      [| |contradiction].
    + destruct F as [F _]. destruct (pending w); exact F.
    + destruct F as [F _]. simpl. apply Forall_app.
      split; [exact F | repeat constructor].
  - rewrite He. simpl. apply Forall_app. split; [|repeat constructor].
    destruct (construct_failure_out os _ _ _ Hc) as [[-> | ->] _];
      unfold udp_banner; try destruct (failed (set_option_ec os));
      repeat constructor.
Qed.

End Framing.

(** ** A packet that arrives from TCP in pieces *)

Lemma firstn_splice got (c a : array) :
  got <= List.length a ->
  firstn (got + List.length c) (splice got c a) = firstn got a ++ c.
Proof.
  intros H. unfold splice.
  rewrite firstn_app, length_firstn, Nat.min_l by assumption.
  rewrite firstn_all2 by (rewrite length_firstn; lia).
  replace (got + List.length c - got) with (List.length c) by lia.
  rewrite firstn_app, Nat.sub_diag, firstn_all. simpl. now rewrite app_nil_r.
Qed.

Lemma concat_nonempty (chunks : list (list byte)) :
  chunks <> [] -> Forall (fun c => c <> []) chunks ->
  0 < List.length (List.concat chunks).
Proof.
  destruct chunks as [|c rest]; [congruence|].
  intros _ H. inversion H; subst. simpl. rewrite length_app.
  destruct c; [congruence | simpl; lia].
Qed.

Section Reassembly.

Context (os : environment).

Lemma chunks_reassembled id ec (chunks : list (list byte)) :
  failed ec = false ->
  forall w got e,
    invariant w ->
    find_op id (pending w) = Some {| op := op_read got; early := e |} ->
    failed (decide e ec) = false ->
    chunks <> [] -> Forall (fun c => c <> []) chunks ->
    got + List.length (List.concat chunks) = packetSize ->
    exists w',
      steps os (map (fun c => (id, read_some_done ec c)) chunks) w w' /\
      out w' = out w ++
        [issue_async_send_to
           (firstn got (tcp_recv_buffer_ (tcpSock w)) ++ List.concat chunks)
           (remote_endpoint_ (udpSock w));
         issue_async_read].
Proof.
  intros Hok. induction chunks as [|c rest IH]; [congruence|].
  intros w got e I Hf Hec _ Hall Hlen.
  inversion Hall as [|c' rest' Hc Hrest]; subst.
  pose proof I as [I1 _ I3 _ _ _ _ _].
  simpl List.concat in Hlen. rewrite length_app in Hlen.
  assert (Hd : firstn (packetSize - got) c = c) by (apply firstn_all2; lia).
  assert (Hne : firstn (packetSize - got) c <> []) by now rewrite Hd.
  destruct rest as [|c2 rest].
  - (* the last chunk *)
    simpl in Hlen. rewrite Nat.add_0_r in Hlen.
    assert (Hfull : got + List.length (firstn (packetSize - got) c) = packetSize)
      by now rewrite Hd.
    pose proof (run_one_read_complete os _ _ _ _ _ _ Hf Hec Hne Hfull I1) as Hr.
    cbv zeta in Hr. eexists. split; [apply steps_one; exact Hr|].
    simpl_after. simpl List.concat. rewrite app_nil_r.
    now rewrite splice_last.
  - (* a chunk that leaves the read outstanding *)
    assert (Hpos : 0 < List.length (List.concat (c2 :: rest)))
      by (apply concat_nonempty; [discriminate | assumption]).
    assert (Hpart : got + List.length (firstn (packetSize - got) c) <> packetSize)
      by (rewrite Hd; lia).
    pose proof (run_one_read_partial os _ _ _ _ _ _ Hf Hec Hne Hpart) as Hr.
    cbv zeta in Hr. rewrite Hd in Hr.
    pose proof (steps_invariant os _ _ _ (steps_one os _ _ _ Hr) I) as I'.
    destruct (IH _ (got + List.length c) None I') as (w' & Hs & Hout).
    + simpl_after. eapply find_op_replaced; eauto.
    + exact Hok.
    + discriminate.
    + assumption.
    + lia.
    + exists w'. split; [simpl map; eapply steps_next; eauto|].
      rewrite Hout. simpl_after. rewrite app_nil_r.
      rewrite firstn_splice by lia.
      simpl List.concat. now rewrite <- app_assoc.
Qed.

(** X8: a packet that arrives from the TCP peer in any number of pieces is
    forwarded as one packet: when the non-empty chunks delivered to a
    fresh read add up to [packetSize] bytes, the bridge starts nothing
    until the last one and then starts exactly one send of the chunks put
    together, and the next read. *)
Theorem tcp_packet_is_reassembled
    (self : SocketBridge) (w : world) (id : op_id)
    (e : option error_code) (ec : error_code) (chunks : list (list byte)) :
  reachable os self w ->
  find_op id (pending w) = Some {| op := op_read 0; early := e |} ->
  failed (decide e ec) = false -> failed ec = false ->
  chunks <> [] -> Forall (fun c => c <> []) chunks ->
  List.length (List.concat chunks) = packetSize ->
  exists w',
    steps os (map (fun c => (id, read_some_done ec c)) chunks) w w' /\
    out w' = out w ++
      [issue_async_send_to (List.concat chunks) (remote_endpoint_ (udpSock w));
       issue_async_read].
Proof.
  intros R Hf Hec Hok Hne Hall Hlen.
  exact (chunks_reassembled id ec chunks Hok w 0 e
           (reachable_invariant os _ _ R) Hf Hec Hne Hall Hlen).
Qed.

End Reassembly.

Lemma tcp_packet_is_reassembled_witness :
  let w := session [(1, connect_done no_error)] in
  let chunks := [repeat x07 20; repeat x08 30; repeat x09 6] in
  reachable quiet_os bridge w /\
  exists w',
    steps quiet_os (map (fun c => (2, read_some_done no_error c)) chunks) w w' /\
    out w' = out w ++
      [issue_async_send_to (List.concat chunks) (remote_endpoint_ (udpSock w));
       issue_async_read].
Proof.
  intros w chunks.
  assert (R : reachable quiet_os bridge w)
    by (apply reachable_session; vm_compute; reflexivity).
  split; [exact R|].
  apply (tcp_packet_is_reassembled quiet_os bridge w 2 None no_error chunks R).
  - vm_compute; reflexivity.
  - reflexivity.
  - reflexivity.
  - discriminate.
  - repeat constructor; discriminate.
  - reflexivity.
Defined.

(** ** A short datagram after a full one *)

Lemma find_op_fresh_second n p s1 s2 :
  Forall (fun e : op_id * started => fst e < n) p ->
  find_op (S n) (p ++ [(n, s1); (S n, s2)]) = Some s2.
Proof.
  intros H.
  change (p ++ [(n, s1); (S n, s2)]) with (p ++ [(n, s1)] ++ [(S n, s2)]).
  rewrite app_assoc. apply find_op_fresh. now apply Forall_fresh_snoc.
Qed.

Section StaleTail.

Context (os : environment).

(** X9: the receive buffer is reused and never cleared.  When a full packet
    [P] has been received and the next datagram [d] is shorter, what is
    forwarded for [d] is [d] followed by the bytes of [P] from position
    [length d] on. *)
Theorem short_datagram_keeps_previous_tail
    (self : SocketBridge) (w : world) (id : op_id) (e : option error_code)
    (ec ec' : error_code) (sender sender' : endpoint) (P d : list byte) :
  reachable os self w ->
  find_op id (pending w) = Some {| op := op_receive_from; early := e |} ->
  failed (decide e ec) = false -> failed ec' = false ->
  List.length P = packetSize -> List.length d <= packetSize ->
  exists w1 w2,
    run_one os (id, receive_from_done ec sender P) w = Val tt w1 /\
    run_one os (S (next_id w), receive_from_done ec' sender' d) w1
      = Val tt w2 /\
    out w2 = out w1 ++
      [issue_async_write (d ++ skipn (List.length d) P);
       issue_async_receive_from].
Proof.
  intros R Hf Hec Hec' HP Hd.
  pose proof (reachable_invariant os _ _ R) as [_ I2 _ I4 I5 [I6 _] _ _].
  pose proof (run_one_receive_ok os _ _ _ _ sender P Hf Hec I2) as H1.
  cbv zeta in H1. rewrite splice_whole in H1 by assumption.
  rewrite I5 in H1. cbn [udp_early] in H1.
  eexists. eexists. split; [exact H1|].
  match type of H1 with _ = Val tt ?W => set (w1 := W) in * end.
  assert (Hf1 : find_op (S (next_id w)) (pending w1)
                = Some {| op := op_receive_from; early := None |}).
  { subst w1. simpl_after. apply find_op_fresh_second.
    now apply Forall_fresh_filter. }
  assert (J2 : tcpServer (udpSock w1) = Some addr_tcpSock)
    by (subst w1; simpl_after; exact I2).
  pose proof (run_one_receive_ok os _ _ _ _ sender' d Hf1 Hec' J2) as H2.
  cbv zeta in H2. split; [exact H2|].
  subst w1. simpl_after. unfold splice.
  rewrite (firstn_all2 d) by lia. reflexivity.
Qed.

End StaleTail.

Lemma short_datagram_keeps_previous_tail_witness :
  let w := session [(1, connect_done no_error)] in
  reachable quiet_os bridge w /\
  exists w1 w2,
    run_one quiet_os (0, receive_from_done no_error peer (packet_of x01)) w
      = Val tt w1 /\
    run_one quiet_os (S (next_id w),
                      receive_from_done no_error peer [x0a; x0b; x0c]) w1
      = Val tt w2 /\
    out w2 = out w1 ++
      [issue_async_write
         ([x0a; x0b; x0c] ++ skipn 3 (packet_of x01));
       issue_async_receive_from].
Proof.
  intros w.
  assert (R : reachable quiet_os bridge w)
    by (apply reachable_session; vm_compute; reflexivity).
  split; [exact R|].
  apply (short_datagram_keeps_previous_tail quiet_os bridge w 0 None
           no_error no_error peer peer (packet_of x01) [x0a; x0b; x0c] R).
  - vm_compute; reflexivity.
  - reflexivity.
  - reflexivity.
  - reflexivity.
  - unfold packetSize. simpl. lia.
Defined.

(** ** The back-references *)

Section Unwired.

Context (os : environment).

(** X10: a handler goes through its back-reference only when its completion
    carries no error.  With [tcpServer] unset, a failed receive is handled
    as usual, a datagram received without error is undefined behaviour,
    and [setTcp] is what makes it defined; the same for [udpServer],
    [setUdp] and a read that completes. *)
Theorem forward_needs_back_reference
    (w : world) (id : op_id) (e : option error_code) (ec : error_code) :
  (forall sender d,
     tcpServer (udpSock w) = None ->
     find_op id (pending w) = Some {| op := op_receive_from; early := e |} ->
     (failed (decide e ec) = true ->
      exists w', run_one os (id, receive_from_done ec sender d) w = Val tt w') /\
     (failed (decide e ec) = false ->
      run_one os (id, receive_from_done ec sender d) w = UB /\
      exists w1 w',
        setTcp addr_tcpSock w = Val tt w1 /\
        run_one os (id, receive_from_done ec sender d) w1 = Val tt w')) /\
  (forall got data,
     udpServer (tcpSock w) = None ->
     find_op id (pending w) = Some {| op := op_read got; early := e |} ->
     (failed (decide e ec) = true ->
      exists w',
        run_one os (id, read_some_done ec data) w = Val tt w' \/
        exists x, run_one os (id, read_some_done ec data) w = Exn x w') /\
     (failed (decide e ec) = false ->
      firstn (packetSize - got) data <> [] ->
      got + List.length (firstn (packetSize - got) data) = packetSize ->
      run_one os (id, read_some_done ec data) w = UB /\
      exists w1 w',
        setUdp addr_udpSock w = Val tt w1 /\
        run_one os (id, read_some_done ec data) w1 = Val tt w')).
Proof.
  split.
  - intros sender d Hp Hf. split; intros Hec.
    + rewrite (run_one_receive_error os _ _ _ _ sender d Hf Hec). eauto.
    + split.
      * unfold_program. simpl_world. rewrite Hf. simpl_world. rewrite Hec.
        simpl_world. now rewrite Hp.
      * eexists. eexists. split; [reflexivity|].
        rewrite (run_one_receive_ok os _ id e ec sender d); eauto.
  - intros got data Hp Hf. split.
    + intros Hec. rewrite (run_one_read_error os _ _ _ _ _ data Hf Hec).
      eexists. apply tcp_close_result.
    + intros Hec Hne Hfull. split.
      * unfold_program. simpl_world. rewrite Hf. simpl_world. rewrite Hec.
        destruct (firstn (packetSize - got) data) as [|c cs] eqn:Hd;
          [congruence|].
        apply Nat.eqb_eq in Hfull. rewrite Hfull.
        simpl_world. now rewrite Hp.
      * eexists. eexists. split; [reflexivity|].
        rewrite (run_one_read_complete os _ id e ec got data); eauto.
Qed.

End Unwired.

Lemma forward_needs_back_reference_witness :
  let w := unwired_world in
  construct quiet_os bridge (raw_world quiet_os) = Val tt w /\
  tcpServer (udpSock w) = None /\
  find_op 0 (pending w) = Some {| op := op_receive_from; early := None |} /\
  run_one quiet_os (0, receive_from_done no_error peer (packet_of x01)) w
    = UB /\
  exists w1 w',
    setTcp addr_tcpSock w = Val tt w1 /\
    run_one quiet_os (0, receive_from_done no_error peer (packet_of x01)) w1
      = Val tt w'.
Proof.
  intros w.
  assert (Hp : tcpServer (udpSock w) = None) by (vm_compute; reflexivity).
  assert (Hf : find_op 0 (pending w)
               = Some {| op := op_receive_from; early := None |})
    by (vm_compute; reflexivity).
  split; [vm_compute; reflexivity|].
  split; [exact Hp|]. split; [exact Hf|].
  exact (proj2 (proj1 (forward_needs_back_reference quiet_os w 0 None no_error)
                  peer (packet_of x01) Hp Hf) eq_refl).
Defined.

(** ** The end of a session *)

Section EndOfSession.

Context (os : environment).



End EndOfSession.


(** ** The receive loop *)

Lemma count_ops_without_other k id p s :
  NoDup (map fst p) -> find_op id p = Some s -> k (op s) = false ->
  count_ops k (without id p) = count_ops k p.
Proof.
  induction p as [|a p IH]; [discriminate|].
  simpl map. intros Hnd. inversion Hnd as [|x l Hnin Hnd']; subst.
  rewrite find_op_cons. unfold without. cbn [filter].
  destruct (Nat.eqb (fst a) id) eqn:E; cbn [negb].
  - intros H Hk. injection H as <-. apply Nat.eqb_eq in E. subst id.
    fold (without (fst a) p). rewrite without_fresh by assumption.
    rewrite count_ops_cons, Hk. reflexivity.
  - intros H Hk. fold (without id p). rewrite !count_ops_cons.
    now rewrite (IH Hnd' H Hk).
Qed.

Section ReceiveLoop.

Context (os : environment).

Lemma step_receives_unhindered ev w w' :
  invariant w -> receives_unhindered w ->
  run_one os ev w = Val tt w' -> receives_unhindered w'.
Proof.
  intros I U Hrun. pose proof I as [I1 I2 _ _ I5 _ _ _].
  pose proof (run_one_delivery os w ev I1 I2) as D. rewrite Hrun in D.
  unfold receives_unhindered in *.
  assert (Hw : forall id,
             Forall (fun e => op (snd e) = op_receive_from ->
                              early (snd e) = None)
                    (without id (pending w)))
    by (intros; now apply Forall_without).
  inversion D; subst;
    try match goal with
        | H : tcp_close os ?W = Val tt w' |- _ =>
            rewrite (tcp_close_fields os W _ w' H (or_introl eq_refl))
        end;
    simpl_after; try assumption; try apply Hw;
    try (apply Forall_app; split; [apply Hw|];
         repeat constructor; cbn [op early snd]; try discriminate;
         intros _; now rewrite I5).
  apply Forall_replaced; [assumption | discriminate].
Qed.

Lemma reachable_receives_unhindered self w :
  reachable os self w -> receives_unhindered w.
Proof.
  intros (w0 & schedule & Hw & Hs).
  pose proof (wired_invariant os _ _ Hw) as I0.
  assert (U0 : receives_unhindered w0).
  { destruct (wired_world os _ _ Hw) as (a & eps & _ & _ & _ & _ & Hp & _).
    unfold receives_unhindered. rewrite Hp.
    repeat constructor; cbn [op early snd]; discriminate. }
  clear Hw. induction Hs as [w|w ev w1 rest w2 Hstep _ IH]; [exact U0|].
  apply IH.
  - eapply steps_invariant; [eapply steps_one; eauto | assumption].
  - eapply step_receives_unhindered; eauto.
Qed.

Lemma step_keeps_receiving ev w w' :
  invariant w -> receives_unhindered w ->
  count_ops is_receive (pending w) = 1 ->
  no_receive_failure ev ->
  run_one os ev w = Val tt w' ->
  count_ops is_receive (pending w') = 1.
Proof.
  intros I U H1 Hev Hrun. pose proof I as [I1 I2 _ _ _ [_ I6] _ _].
  pose proof (run_one_delivery os w ev I1 I2) as D. rewrite Hrun in D.
  unfold no_receive_failure in Hev.
  inversion D; subst; cbn [snd] in Hev;
    try match goal with
        | H : tcp_close os ?W = Val tt w' |- _ =>
            rewrite (tcp_close_fields os W _ w' H (or_introl eq_refl))
        end;
    simpl_after; try assumption;
    try match goal with
        | H : find_op ?id _ = Some {| op := op_receive_from; early := ?e |} |- _ =>
            pose proof (find_op_Forall _ _ _ _ U H eq_refl) as He;
            cbn [early snd] in He; subst e;
            pose proof (count_ops_remove is_receive _ _ _ H eq_refl)
        | H : find_op ?id _ = Some _ |- _ =>
            first
              [ rewrite (count_ops_replace is_receive _ _ _ _ I6 H);
                [assumption | reflexivity]
              | rewrite ?count_ops_app, ?count_ops_cons, ?count_ops_nil;
                rewrite (count_ops_without_other is_receive _ _ _ I6 H eq_refl) ]
        end;
    rewrite ?count_ops_app, ?count_ops_cons, ?count_ops_nil;
    cbn [is_receive op snd decide] in *; try lia; try congruence.
Qed.

(** A handler throws only through [socket_.close()], in the error branch
    of the read or the write handler; the socket is closed then and the
    outstanding receive is still outstanding. *)
Lemma run_one_throws ev w x w' :
  invariant w -> run_one os ev w = Exn x w' ->
  x = close_exception os /\ failed (close_ec os) = true /\
  tcp_socket_ (tcpSock w') = closed /\
  count_ops is_receive (pending w') = count_ops is_receive (pending w).
Proof.
  intros I Hrun. pose proof I as [I1 I2 _ _ _ [_ I6] _ _].
  pose proof (run_one_delivery os w ev I1 I2) as D. rewrite Hrun in D.
  inversion D; subst;
    match goal with
    | H : tcp_close os ?W = Exn x w' |- _ =>
        rewrite tcp_close_exact in H;
        destruct (close_throws os (tcp_socket_ (tcpSock W))) eqn:Hc;
        [|discriminate H];
        injection H as <- <-
    end;
    (split; [reflexivity|]);
    (split; [unfold world_after in Hc; cbn [tcpSock] in Hc;
             destruct (tcp_socket_ (tcpSock w)); (discriminate Hc || exact Hc)|]);
    (split; [reflexivity|]);
    simpl_after;
    match goal with
    | H : find_op _ _ = Some _ |- _ =>
        exact (count_ops_without_other is_receive _ _ _ I6 H eq_refl)
    end.
Qed.

(** [io_service.run()] from a world with one receive outstanding, over
    completions of which no receive carries an error. *)
Lemma run_keeps_receiving schedule w :
  invariant w -> receives_unhindered w ->
  count_ops is_receive (pending w) = 1 ->
  Forall no_receive_failure schedule ->
  (exists w', io_service_run os schedule w = Val tt w' /\
              count_ops is_receive (pending w') = 1) \/
  (exists w', io_service_run os schedule w = Exn (close_exception os) w' /\
              failed (close_ec os) = true /\
              tcp_socket_ (tcpSock w') = closed /\
              count_ops is_receive (pending w') = 1).
Proof.
  revert w. induction schedule as [|ev rest IH]; intros w I U C Hall.
  - left. exists w. split; [reflexivity | exact C].
  - inversion Hall as [|? ? Hev Hrest]; subst.
    rewrite io_service_run_cons.
    destruct (pending w) eqn:Hp; [discriminate C|]. rewrite <- Hp in *.
    destruct (run_one_invariant os ev w I) as (w1 & [Hv|[e He]] & I1).
    + rewrite Hv. apply IH; [exact I1 | | | exact Hrest].
      * exact (step_receives_unhindered ev w w1 I U Hv).
      * exact (step_keeps_receiving ev w w1 I U C Hev Hv).
    + rewrite He. right. exists w1.
      destruct (run_one_throws _ _ _ _ I He) as (-> & Hc & Hcl & Hn).
      split; [reflexivity|]. split; [exact Hc|]. split; [exact Hcl|].
      now rewrite Hn.
Qed.

(** X12: what ends the receive loop.  From the entry of the event loop on,
    over any completions of which no receive carries an error, whatever
    happens to the connect, the reads, the writes and the sends, there are
    two outcomes only.  Either every handler returned: then exactly one
    receive is outstanding and [io_service.run()] has not returned.  Or the
    system reported an error for [socket_.close()] in the error branch of the
    read or write handler: [close] threw, [io_service.run()] was left with
    the TCP socket closed and the receive still outstanding, and
    [startConnections] printed the exception and returned. *)
Theorem receive_loop_stops_only_on_receive_error
    (self : SocketBridge) (schedule : list event) (w0 : world) :
  wired os self w0 ->
  Forall no_receive_failure schedule ->
  (exists w,
     io_service_run os schedule w0 = Val tt w /\
     count_ops is_receive (pending w) = 1 /\
     startConnections os self schedule = running w) \/
  (exists w,
     io_service_run os schedule w0 = Exn (close_exception os) w /\
     failed (close_ec os) = true /\
     tcp_socket_ (tcpSock w) = closed /\
     count_ops is_receive (pending w) = 1 /\
     startConnections os self schedule
       = returned (out w ++ [cerr (what (close_exception os))])).
Proof.
  intros Hw Hall.
  assert (R0 : reachable os self w0)
    by (exists w0, []; split; [assumption | apply steps_refl]).
  assert (C0 : count_ops is_receive (pending w0) = 1).
  { destruct (wired_world os _ _ Hw) as (a & eps & _ & _ & _ & _ & Hp & _).
    rewrite Hp. reflexivity. }
  unfold startConnections. rewrite try_block_wired.
  pose proof Hw as Hw'. unfold wired in Hw'. rewrite Hw'.
  destruct (run_keeps_receiving schedule w0
              (reachable_invariant os _ _ R0)
              (reachable_receives_unhindered _ _ R0) C0 Hall)
    as [(w & Hr & C)|(w & Hr & Hc & Hcl & C)]; rewrite Hr.
  - left. exists w. split; [reflexivity|]. split; [exact C|].
    destruct (pending w) eqn:Hp; [discriminate C | reflexivity].
  - right. exists w. repeat split; assumption.
Qed.

End ReceiveLoop.

Lemma receive_loop_stops_only_on_receive_error_witness :
  let w0 := session_in failing_close_os [] in
  wired failing_close_os bridge w0 /\
  Forall no_receive_failure reset_schedule /\
  ((exists w,
      io_service_run failing_close_os reset_schedule w0 = Val tt w /\
      count_ops is_receive (pending w) = 1 /\
      startConnections failing_close_os bridge reset_schedule = running w) \/
   (exists w,
      io_service_run failing_close_os reset_schedule w0
        = Exn (close_exception failing_close_os) w /\
      failed (close_ec failing_close_os) = true /\
      tcp_socket_ (tcpSock w) = closed /\
      count_ops is_receive (pending w) = 1 /\
      startConnections failing_close_os bridge reset_schedule
        = returned (out w ++ [cerr (what (close_exception failing_close_os))]))) /\
  startConnections failing_close_os bridge reset_schedule
    = returned
        (out (session [(1, connect_done no_error)]) ++
         [cerr ("SocketBridge: TCP failed read: " ++ show_ec err_connection_reset);
          cerr "close: Input/output error"]).
Proof.
  intros w0.
  assert (Hw : wired failing_close_os bridge w0) by (vm_compute; reflexivity).
  assert (Hall : Forall no_receive_failure reset_schedule)
    by (repeat constructor).
  split; [exact Hw|]. split; [exact Hall|]. split.
  - exact (receive_loop_stops_only_on_receive_error failing_close_os bridge
             reset_schedule w0 Hw Hall).
  - vm_compute. reflexivity.
Defined.

(** ** What a step touches and what it starts *)

Section Frame.

Context (os : environment).

(** X13: what a completion handler starts.  A handler, whether it returns
    or throws, starts a TCP write only when it is the handler of a receive,
    and the write carries the UDP receive buffer; it starts a UDP send only
    when it is the handler of a read, and the send carries the TCP receive
    buffer.  The handlers of a connect, of a write and of a send start
    neither.  This is about what each handler starts, not about the way a
    packet takes: where a send goes is [remote_endpoint_], and the datagram
    sent there may well be received by this socket again. *)
Theorem forwards_only_cross (self : SocketBridge) (w : world)
    (ev : event) (w' : world) :
  reachable os self w ->
  (run_one os ev w = Val tt w' \/ exists x, run_one os ev w = Exn x w') ->
  exists acts,
    out w' = out w ++ acts /\
    (forall m, In (issue_async_write m) acts ->
       is_receive_completion (snd ev) = true /\
       m = udp_recv_buffer_ (udpSock w')) /\
    (forall m dst, In (issue_async_send_to m dst) acts ->
       is_read_completion (snd ev) = true /\
       m = tcp_recv_buffer_ (tcpSock w')).
Proof.
  intros R Hrun.
  pose proof (reachable_invariant os _ _ R) as [I1 I2 _ _ _ _ _ _].
  pose proof (run_one_delivery os w ev I1 I2) as D.
  destruct Hrun as [Hrun|[x Hrun]]; rewrite Hrun in D;
    inversion D; subst;
    try match goal with
        | H : tcp_close os ?W = Val tt w' |- _ =>
            rewrite (tcp_close_fields os W _ w' H (or_introl eq_refl))
        | H : tcp_close os ?W = Exn ?y w' |- _ =>
            rewrite (tcp_close_fields os W _ w' H
                       (or_intror (ex_intro _ y eq_refl)))
        end;
    simpl_after;
    try (exists []; rewrite app_nil_r; split; [reflexivity|];
         split; intros; contradiction);
    (eexists; split; [reflexivity|]; split;
     [ intros msg Hin | intros msg dst' Hin ];
     in_cases Hin;
     first [ injection Hin as <- <- | injection Hin as <- ];
     split; reflexivity).
Qed.

(** X14: each endpoint's state is touched only by its own completions.  A
    step that is not a receive completion leaves the whole UDP endpoint,
    its receive buffer and its remote endpoint as they were; a step that is
    not a read completion leaves the TCP receive buffer as it was; and no
    step changes a back-reference. *)
Theorem step_frame (self : SocketBridge) (w : world)
    (ev : event) (w' : world) :
  reachable os self w -> run_one os ev w = Val tt w' ->
  (is_receive_completion (snd ev) = false -> udpSock w' = udpSock w) /\
  (is_read_completion (snd ev) = false ->
   tcp_recv_buffer_ (tcpSock w') = tcp_recv_buffer_ (tcpSock w)) /\
  udpServer (tcpSock w') = udpServer (tcpSock w) /\
  tcpServer (udpSock w') = tcpServer (udpSock w).
Proof.
  intros R Hrun.
  pose proof (reachable_invariant os _ _ R) as [I1 I2 _ _ _ _ _ _].
  pose proof (run_one_delivery os w ev I1 I2) as D. rewrite Hrun in D.
  inversion D; subst;
    try match goal with
        | H : tcp_close os ?W = Val tt w' |- _ =>
            rewrite (tcp_close_fields os W _ w' H (or_introl eq_refl))
        end;
    simpl_after; cbn [is_receive_completion is_read_completion];
    repeat split; try reflexivity; try discriminate.
Qed.

End Frame.

Lemma forwards_only_cross_witness :
  let w := session [(1, connect_done no_error)] in
  let ev := (0, receive_from_done no_error peer (packet_of x01)) in
  let w' := session [(1, connect_done no_error); ev] in
  reachable quiet_os bridge w /\
  run_one quiet_os ev w = Val tt w' /\
  exists acts,
    out w' = out w ++ acts /\
    (forall m, In (issue_async_write m) acts ->
       is_receive_completion (snd ev) = true /\
       m = udp_recv_buffer_ (udpSock w')) /\
    (forall m dst, In (issue_async_send_to m dst) acts ->
       is_read_completion (snd ev) = true /\
       m = tcp_recv_buffer_ (tcpSock w')).
Proof.
  intros w ev w'.
  assert (R : reachable quiet_os bridge w)
    by (apply reachable_session; vm_compute; reflexivity).
  assert (Hr : run_one quiet_os ev w = Val tt w') by (vm_compute; reflexivity).
  split; [exact R|]. split; [exact Hr|].
  exact (forwards_only_cross quiet_os bridge w ev w' R (or_introl Hr)).
Defined.

Lemma step_frame_witness :
  let w := session [(1, connect_done no_error);
                    (0, receive_from_done no_error peer (packet_of x01))] in
  let ev := (2, read_some_done no_error (packet_of x07)) in
  let w' := session stranger_schedule in
  reachable quiet_os bridge w /\
  run_one quiet_os ev w = Val tt w' /\
  udpSock w' = udpSock w /\
  udpServer (tcpSock w') = udpServer (tcpSock w) /\
  tcpServer (udpSock w') = tcpServer (udpSock w).
Proof.
  intros w ev w'.
  assert (R : reachable quiet_os bridge w)
    by (apply reachable_session; vm_compute; reflexivity).
  assert (Hr : run_one quiet_os ev w = Val tt w') by (vm_compute; reflexivity).
  split; [exact R|]. split; [exact Hr|].
  destruct (step_frame quiet_os bridge w ev w' R Hr) as (Hu & _ & Hp).
  split; [exact (Hu eq_refl) | exact Hp].
Defined.
